(** * iNaturalistDatasetCreator: a shallow embedding of [main.py]

    The script harvests photographs per species from the iNaturalist API.
    Its globals ([request_count], [species_done], [total_results]), the
    persistent response cache, the species folders on disk, a virtual clock
    and the trace of observable events form an explicit [State]; every
    function of the script is a computation in a state-and-exception monad
    over it.  The remote services are an oracle ([Env]) indexed by the
    number of requests already sent, so that two calls may be answered
    differently.

    Strings are ASCII strings: names, URLs and header values are taken to
    consist of code points below 128. *)

From Stdlib Require Import ZArith Lia Ascii String List Bool.
From stdpp Require Import base tactics option gmap strings list fin_maps pretty.

Local Open Scope string_scope.
Local Open Scope Z_scope.

(** ** Text helpers: the regular expressions and string methods used *)

Module Text.

(** [\s] on a [str] pattern, restricted to ASCII: tab, line feed, vertical
    tab, form feed, carriage return, the four separators 0x1c-0x1f, space. *)
Definition is_space (c : ascii) : bool :=
  let n := nat_of_ascii c in
  ((9 <=? n)%nat && (n <=? 13)%nat) || ((28 <=? n)%nat && (n <=? 32)%nat).

(** [[a-z]] and [[A-Z]]. *)
Definition is_lower (c : ascii) : bool :=
  let n := nat_of_ascii c in (97 <=? n)%nat && (n <=? 122)%nat.

Definition is_upper (c : ascii) : bool :=
  let n := nat_of_ascii c in (65 <=? n)%nat && (n <=? 90)%nat.

Definition lower_char (c : ascii) : ascii :=
  if is_upper c then ascii_of_nat (nat_of_ascii c + 32) else c.

(** [str.lower()]. *)
Fixpoint lower (s : string) : string :=
  match s with
  | EmptyString => EmptyString
  | String c s' => String (lower_char c) (lower s')
  end.

(** [re.sub(r'[\s]+', '_', s)]: every maximal run of whitespace becomes one
    underscore.  [in_run] tells that the previous character was whitespace
    and already produced the underscore of its run. *)
Fixpoint sub_spaces (in_run : bool) (s : string) : string :=
  match s with
  | EmptyString => EmptyString
  | String c s' =>
      if is_space c
      then (if in_run then sub_spaces true s' else String "_" (sub_spaces true s'))
      else String c (sub_spaces false s')
  end.

(** [re.sub(r'([a-z])([A-Z])', r'\1_\2', s)]: matches are found left to
    right and do not overlap; the scan resumes after the capital. *)
Fixpoint sub_camel (s : string) : string :=
  match s with
  | EmptyString => EmptyString
  | String c1 s1 =>
      match s1 with
      | EmptyString => String c1 EmptyString
      | String c2 s2 =>
          if is_lower c1 && is_upper c2
          then String c1 (String "_" (String c2 (sub_camel s2)))
          else String c1 (sub_camel s1)
      end
  end.

(** [needle in hay]. *)
Fixpoint contains (needle hay : string) : bool :=
  String.prefix needle hay ||
  match hay with
  | EmptyString => false
  | String _ hay' => contains needle hay'
  end.

Fixpoint drop (n : nat) (s : string) : string :=
  match n, s with
  | O, _ => s
  | S n', String _ s' => drop n' s'
  | S _, EmptyString => EmptyString
  end.

(** [re.sub(old, new, s, count=1)] for a literal, non-empty pattern [old]. *)
Fixpoint replace_first (old new s : string) : string :=
  if String.prefix old s then new ++ drop (String.length old) s
  else match s with
       | EmptyString => EmptyString
       | String c s' => String c (replace_first old new s')
       end.

(** [s.endswith("/")]. *)
Fixpoint ends_with_slash (s : string) : bool :=
  match s with
  | EmptyString => false
  | String c EmptyString => Ascii.eqb c "/"
  | String _ s' => ends_with_slash s'
  end.

(** [os.path.join(a, b)] on POSIX: an absolute [b] replaces [a]; no slash
    is added after an empty [a] or after an [a] that ends in one. *)
Definition path_join (a b : string) : string :=
  if String.prefix "/" b then b
  else if String.eqb a "" || ends_with_slash a then a ++ b
  else a ++ "/" ++ b.

End Text.

(** [to_snake_case], lines 24-34. *)
Definition to_snake_case (s : string) : string :=
  let s := Text.sub_spaces false s in
  let s := Text.sub_camel s in
  Text.lower s.

(** ** Data model *)

(** The exceptions the script can meet.  [RequestException] stands for the
    whole [requests.exceptions] family (connection error, timeout, a body
    that is not JSON); [OutOfFuel] is not a Python exception: it marks a
    [while] loop that was cut by the model's fuel. *)
Inductive Exn :=
| RequestException
| KeyError
| IndexError
| ZeroDivisionError
| AttributeError
| ValueError
| UnidentifiedImageError
| FileNotFoundError
| OSError
| SystemExit (code : Z)
| OutOfFuel.

Definition is_request_exception (e : Exn) : bool :=
  match e with RequestException => true | _ => false end.

(** [specy['taxon']['id']] and [specy['taxon']['name']]. *)
Record Species := { taxon_id : Z; taxon_name : string }.

(** Parameters of the observation query, lines 90-98; [photo_license] and
    [page] are the constants ['any'] and ['']. *)
Record ObsQuery := {
  q_taxon_id : Z;
  q_order_by : string;
  q_quality_grade : string;
  q_photos : bool;
  q_per_page : Z
}.

(** One observation: the URLs of its attached photos, in order
    ([anObs['observation_photos'][i]['photo']['url']]). *)
Record Observation := { observation_photos : list string }.

(** The decoded JSON of an observation response.  A field is [None] when
    the key is missing from the object. *)
Record ObsJson := {
  obs_total_results : option Z;
  obs_results : option (list Observation)
}.

(** Replies of the search and species-count services. *)
Record SpeciesJson := {
  sp_total_results : Z;
  sp_results : list Species
}.

(** What the image codec reports of an image.  [Image.open] reads the
    header only; the pixel data is decoded when [convert] or [save] asks for
    it, and [img_loads] tells whether that succeeds (it does not on a
    truncated or corrupt body). *)
Record Image := {
  img_format : string;
  img_width : Z;
  img_height : Z;
  img_mode : string;
  img_loads : bool
}.

(** The reply to a photo download: status, the [Content-Type] header when
    present, and what [Image.open] makes of the body ([None]: it cannot be
    identified). *)
Record HttpResponse := {
  status_code : Z;
  content_type : option string;
  content : option Image
}.

(** A directory entry: a photo saved by the script, or anything else, which
    is a regular file or not. *)
Inductive Entry :=
| Saved (img : Image)
| Other (regular : bool).

Definition is_regular (e : Entry) : bool :=
  match e with Saved _ => true | Other b => b end.

Inductive Msg :=
| MsgRateLimit
| MsgSkipNonImage (url : string)
| MsgSkipFormat (url : string)
| MsgSkipZero (url : string)
| MsgFailedDownload (url : string)
| MsgErrorDownload (url : string) (e : Exn)
| MsgCacheUsed (folder : string)
| MsgDone (name : string) (num_images : Z)
| MsgRequests (n : Z)
| MsgProgress (done total : Z)
| MsgTotalSpecies (n : Z)
| MsgFetched (n : Z).

(** Observable events, in the order they happen. *)
Inductive Event :=
| EvPrint (m : Msg)
| EvSleep (secs : Z)
| EvLock
| EvUnlock
| EvSpeciesDone
| EvObsRequest (q : ObsQuery)
| EvPhotoRequest (url : string)
| EvSearchRequest (query : string)
| EvCountsRequest (page : Z)
| EvCacheLookup (key : string)
| EvCacheStore (key : string)
| EvSave (folder name : string).

Definition is_network (e : Event) : bool :=
  match e with
  | EvObsRequest _ | EvPhotoRequest _ | EvSearchRequest _ | EvCountsRequest _ => true
  | _ => false
  end.

Definition is_cache_access (e : Event) : bool :=
  match e with EvCacheLookup _ | EvCacheStore _ => true | _ => false end.

(** The remote services.  The [nat] is the number of requests the process
    has sent before this one. *)
Record Env := {
  http_get : string -> nat -> Exn + HttpResponse;
  api_observations : ObsQuery -> nat -> Exn + ObsJson;
  api_search : string -> nat -> Exn + SpeciesJson;
  api_species_counts : Z -> nat -> Exn + SpeciesJson
}.

(** The globals of lines 18-22, the disk, the clock and the trace.  [fs]
    holds the species folders, under the paths the script uses for them
    ([os.path.join(root_folder, key)]), each with its entries; the
    directories above a species folder are not part of the state. *)
Record State := {
  request_count : Z;
  species_done : Z;
  total_results : Z;
  cache : gmap string ObsJson;
  fs : gmap string (gmap string Entry);
  clock : Z;
  net_calls : nat;
  trace : list Event
}.

(** A fresh process: the counters are zero; the cache and the folders are
    what earlier runs left. *)
Definition initial_state (c : gmap string ObsJson)
    (d : gmap string (gmap string Entry)) : State :=
  {| request_count := 0; species_done := 0; total_results := 0;
     cache := c; fs := d; clock := 0; net_calls := O; trace := [] |}.

Definition set_request_count (n : Z) (st : State) : State :=
  {| request_count := n; species_done := species_done st;
     total_results := total_results st; cache := cache st; fs := fs st;
     clock := clock st; net_calls := net_calls st; trace := trace st |}.

Definition set_species_done (n : Z) (st : State) : State :=
  {| request_count := request_count st; species_done := n;
     total_results := total_results st; cache := cache st; fs := fs st;
     clock := clock st; net_calls := net_calls st; trace := trace st |}.

Definition set_cache (c : gmap string ObsJson) (st : State) : State :=
  {| request_count := request_count st; species_done := species_done st;
     total_results := total_results st; cache := c; fs := fs st;
     clock := clock st; net_calls := net_calls st; trace := trace st |}.

Definition set_fs (d : gmap string (gmap string Entry)) (st : State) : State :=
  {| request_count := request_count st; species_done := species_done st;
     total_results := total_results st; cache := cache st; fs := d;
     clock := clock st; net_calls := net_calls st; trace := trace st |}.

Definition set_clock (t : Z) (st : State) : State :=
  {| request_count := request_count st; species_done := species_done st;
     total_results := total_results st; cache := cache st; fs := fs st;
     clock := t; net_calls := net_calls st; trace := trace st |}.

Definition set_net_calls (n : nat) (st : State) : State :=
  {| request_count := request_count st; species_done := species_done st;
     total_results := total_results st; cache := cache st; fs := fs st;
     clock := clock st; net_calls := n; trace := trace st |}.

Definition set_trace (t : list Event) (st : State) : State :=
  {| request_count := request_count st; species_done := species_done st;
     total_results := total_results st; cache := cache st; fs := fs st;
     clock := clock st; net_calls := net_calls st; trace := t |}.

(** ** The state-and-exception monad *)

Inductive Result (A : Type) :=
| Ok (a : A)
| Raise (e : Exn).
Arguments Ok {A} a.
Arguments Raise {A} e.

Definition M (A : Type) : Type := State -> Result A * State.

Definition ret {A} (a : A) : M A := fun st => (Ok a, st).

Definition bind {A B} (m : M A) (k : A -> M B) : M B :=
  fun st =>
    match m st with
    | (Ok a, st') => k a st'
    | (Raise e, st') => (Raise e, st')
    end.

Definition raise {A} (e : Exn) : M A := fun st => (Raise e, st).

Definition get : M State := fun st => (Ok st, st).

Definition modify (f : State -> State) : M unit := fun st => (Ok tt, f st).

(** [try: m except <filter> as e: h e]. *)
Definition try_except {A} (m : M A) (filter : Exn -> bool) (h : Exn -> M A) : M A :=
  fun st =>
    match m st with
    | (Ok a, st') => (Ok a, st')
    | (Raise e, st') => if filter e then h e st' else (Raise e, st')
    end.

(** Python catches everything but interpreter exits under [except Exception]. *)
Definition is_exception (e : Exn) : bool :=
  match e with SystemExit _ | OutOfFuel => false | _ => true end.

Declare Scope py_scope.
Delimit Scope py_scope with py.
Notation "x <- m ;; k" := (bind m (fun x => k))
  (at level 100, m at next level, right associativity) : py_scope.
Notation "m ;;; k" := (bind m (fun _ => k))
  (at level 100, right associativity) : py_scope.
Local Open Scope py_scope.

Definition emit (e : Event) : M unit :=
  modify (fun st => set_trace (trace st ++ [e]) st).

Definition print (m : Msg) : M unit := emit (EvPrint m).

(** [time.sleep(secs)]: the only operation that lets time pass. *)
Definition sleep (secs : Z) : M unit :=
  emit (EvSleep secs) ;;;
  modify (fun st => set_clock (clock st + secs) st).

(** [lock.acquire()] and [lock.release()]: the model runs one worker at a
    time, so the lock only shows in the trace. *)
Definition lock_acquire : M unit := emit EvLock.
Definition lock_release : M unit := emit EvUnlock.

(** [with lock: body]. *)
Definition with_lock {A} (body : M A) : M A :=
  fun st =>
    match (lock_acquire ;;; body) st with
    | (r, st') => (r, snd (lock_release st'))
    end.

(** One request leaves the process: it is traced and counted, and the
    oracle answers or fails. *)
Definition request {A} (ev : Event) (oracle : nat -> Exn + A) : M A :=
  st <- get ;;
  emit ev ;;;
  modify (fun st => set_net_calls (S (net_calls st)) st) ;;;
  match oracle (net_calls st) with
  | inl e => raise e
  | inr a => ret a
  end.

(** ** The script *)

Definition root_folder : string := "fish_photos".

(** Filesystem primitives.  [os.listdir] fails on a missing folder. *)
Definition path_exists (folder : string) : M bool :=
  st <- get ;; ret (bool_decide (is_Some (fs st !! folder))).

(** [os.makedirs(folder)] on a folder that does not exist: the folder is
    there afterwards, empty.  The directories above it, which the call
    creates too when they are missing, are outside [fs]. *)
Definition makedirs (folder : string) : M unit :=
  modify (fun st => set_fs (<[folder := ∅]> (fs st)) st).

Definition listdir (folder : string) : M (list (string * Entry)) :=
  st <- get ;;
  match fs st !! folder with
  | Some d => ret (map_to_list d)
  | None => raise FileNotFoundError
  end.

(** [len([name for name in os.listdir(folder) if os.path.isfile(...)])]. *)
Definition count_files (folder : string) : M Z :=
  names <- listdir folder ;;
  ret (Z.of_nat (length (List.filter (fun e => is_regular (snd e)) names))).

(** [create_species_folder], lines 36-40. *)
Definition create_species_folder (root species_name : string) : M string :=
  let species_folder := Text.path_join root species_name in
  b <- path_exists species_folder ;;
  (if negb b then makedirs species_folder else ret tt) ;;;
  ret species_folder.

(** [respect_rate_limit], lines 43-50. *)
Definition respect_rate_limit : M unit :=
  st <- get ;;
  if request_count st >=? 60 then
    print MsgRateLimit ;;;
    sleep 60 ;;;
    modify (set_request_count 0)
  else
    modify (set_request_count (request_count st + 1)).

(** The image codec, as far as the script uses it. *)
Definition image_open (r : HttpResponse) : M Image :=
  match content r with
  | Some img => ret img
  | None => raise UnidentifiedImageError
  end.

(** [img.load()], which [convert] and [save] call first. *)
Definition image_load (img : Image) : M unit :=
  if img_loads img then ret tt else raise OSError.

(** [img.convert('RGB')]: a new image, decoded, in mode RGB. *)
Definition convert_rgb (img : Image) : M Image :=
  image_load img ;;;
  ret {| img_format := img_format img; img_width := img_width img;
         img_height := img_height img; img_mode := "RGB"; img_loads := true |}.

(** [img.save(f"{folder}/{name}")]: the pixel data is decoded before the
    file is opened; then the file is created or replaced; the folder must
    exist. *)
Definition image_save (img : Image) (folder name : string) : M unit :=
  image_load img ;;;
  st <- get ;;
  match fs st !! folder with
  | Some d =>
      modify (set_fs (<[folder := <[name := Saved img]> d]> (fs st))) ;;;
      emit (EvSave folder name)
  | None => raise FileNotFoundError
  end.

Definition header_content_type (r : HttpResponse) : M string :=
  match content_type r with
  | Some v => ret v
  | None => raise KeyError
  end.

Definition photo_name (photo_index : nat) (format : string) : string :=
  "photo_" ++ pretty photo_index ++ "." ++ Text.lower format.

(** [download_and_process_photo], lines 52-87. *)
Definition download_and_process_photo (env : Env)
    (photo_url species_folder : string) (photo_index : nat) : M unit :=
  try_except
    (response <- request (EvPhotoRequest photo_url) (http_get env photo_url) ;;
     if status_code response =? 200 then
       ctype <- header_content_type response ;;
       if negb (Text.contains "image" ctype) then
         print (MsgSkipNonImage photo_url)
       else
         img <- image_open response ;;
         if negb (String.eqb (img_format img) "JPEG" || String.eqb (img_format img) "PNG") then
           print (MsgSkipFormat photo_url)
         else if (img_width img =? 0) || (img_height img =? 0) then
           print (MsgSkipZero photo_url)
         else
           let photo_filename := photo_name photo_index (img_format img) in
           img <-
             (if negb (String.eqb (img_mode img) "RGB") && String.eqb (img_format img) "JPEG"
              then convert_rgb img else ret img) ;;
           image_save img species_folder photo_filename
     else
       print (MsgFailedDownload photo_url))
    is_exception
    (fun e => print (MsgErrorDownload photo_url e)).

(** [get_observations], lines 89-103: the handler re-raises. *)
Definition get_observations (env : Env) (q : ObsQuery) : M ObsJson :=
  try_except
    (request (EvObsRequest q) (api_observations env q))
    is_request_exception
    (fun e => raise e).

(** [search_specy], lines 105-113. *)
Definition search_specy (env : Env) (query : string) : M SpeciesJson :=
  try_except
    (request (EvSearchRequest query) (api_search env query))
    is_request_exception
    (fun e => raise e).

(** [cached_get_observations], lines 116-128. *)
Definition cached_get_observations (env : Env) (q : ObsQuery)
    (species_folder : string) : M ObsJson :=
  let cache_key := species_folder in
  st <- get ;;
  emit (EvCacheLookup cache_key) ;;;
  match cache st !! cache_key with
  | Some v =>
      print (MsgCacheUsed species_folder) ;;;
      ret v
  | None =>
      lock_acquire ;;;
      respect_rate_limit ;;;
      lock_release ;;;
      res <- get_observations env q ;;
      emit (EvCacheStore cache_key) ;;;
      modify (fun st => set_cache (<[cache_key := res]> (cache st)) st) ;;;
      ret res
  end.

(** [executor.map(f, tasks)] inside [with ThreadPoolExecutor() as executor]:
    leaving the block waits for every task; the iterator of results is never
    consumed, so what a task returns or raises is dropped.  The model runs
    the tasks one after the other, in the order they were submitted. *)
Fixpoint executor_map {A} (f : A -> M unit) (tasks : list A) : M unit :=
  match tasks with
  | [] => ret tt
  | t :: tasks' =>
      fun st => executor_map f tasks' (snd (f t st))
  end.

(** [report_stats], lines 175-178.  The quotient is a float; the model
    prints the two counters it is made of. *)
Definition report_stats : M unit :=
  st <- get ;;
  print (MsgRequests (request_count st)) ;;;
  if total_results st =? 0 then raise ZeroDivisionError
  else print (MsgProgress (species_done st) (total_results st)).

Definition obs_get_total_results (obs : ObsJson) : M Z :=
  match obs_total_results obs with Some n => ret n | None => raise KeyError end.

Definition obs_get_results (obs : ObsJson) : M (list Observation) :=
  match obs_results obs with Some l => ret l | None => raise KeyError end.

(** Lines 154-159: the first photo of every observation that has one, its
    resolution token rewritten once. *)
Fixpoint extract_photo_urls (obs : list Observation) : list string :=
  match obs with
  | [] => []
  | anObs :: obs' =>
      match observation_photos anObs with
      | photoUrl :: _ =>
          Text.replace_first "square" "medium" photoUrl :: extract_photo_urls obs'
      | [] => extract_photo_urls obs'
      end
  end.

Definition enumerate {A} (l : list A) : list (nat * A) := imap pair l.

Definition incr_species_done : M unit :=
  emit EvSpeciesDone ;;;
  modify (fun st => set_species_done (species_done st + 1) st).

(** [process_specy], lines 130-173.  [total_results] on line 150 is a local
    of the function: it is the bound name [total_results_local] here, and
    the global of the same name is not written. *)
Definition process_specy (env : Env) (specy : Species) (nb_img : Z) : M unit :=
  let common_name := to_snake_case (taxon_name specy) in
  let species_folder := Text.path_join root_folder common_name in
  ex <- path_exists species_folder ;;
  satisfied <-
    (if ex then
       num_images <- count_files species_folder ;;
       ret (num_images >=? 30)
     else ret false) ;;
  if satisfied then
    with_lock incr_species_done
  else
    species_folder <- create_species_folder root_folder common_name ;;
    obs <- cached_get_observations env
             {| q_taxon_id := taxon_id specy; q_order_by := "votes";
                q_quality_grade := "research"; q_photos := true;
                q_per_page := nb_img |}
             species_folder ;;
    total_results_local <- obs_get_total_results obs ;;
    obs <- obs_get_results obs ;;
    let photo_urls := extract_photo_urls obs in
    num_images <- count_files species_folder ;;
    (if (num_images <? 100) && (num_images <? total_results_local) then
       executor_map
         (fun url => download_and_process_photo env (snd url) species_folder (fst url))
         (enumerate photo_urls)
     else ret tt) ;;;
    with_lock incr_species_done ;;;
    num_images <- count_files species_folder ;;
    print (MsgDone common_name num_images) ;;;
    report_stats.

(** [get_observation_species_counts(..., page=page)] of pyinaturalist. *)
Definition get_observation_species_counts (env : Env) (page : Z) : M SpeciesJson :=
  request (EvCountsRequest page) (api_species_counts env page).

(** The [while] loop of lines 201-214; [fuel] bounds its iterations. *)
Fixpoint fetch_pages (env : Env) (fuel : nat) (page total : Z)
    (all_species : list Species) : M (list Species) :=
  if Z.of_nat (length all_species) <? total then
    match fuel with
    | O => raise OutOfFuel
    | S fuel' =>
        let page := page + 1 in
        observations <- get_observation_species_counts env page ;;
        fetch_pages env fuel' page total (all_species ++ sp_results observations)
    end
  else ret all_species.

(** [process_indian_oceanic_fish_species], lines 180-220.  As on line 150,
    [total_results] on line 195 is a local. *)
Definition process_indian_oceanic_fish_species (env : Env) (fuel : nat)
    (nb_img : Z) : M unit :=
  let page := 1 in
  observations <- get_observation_species_counts env page ;;
  let total_results_local := sp_total_results observations in
  print (MsgTotalSpecies total_results_local) ;;;
  all_species <- fetch_pages env fuel page total_results_local (sp_results observations) ;;
  print (MsgFetched (Z.of_nat (length all_species))) ;;;
  executor_map (fun a => process_specy env (fst a) (snd a))
    (zip all_species (replicate (length all_species) nb_img)).

(** ** The command line *)

Module Cli.

Definition is_digit (c : ascii) : bool :=
  let n := nat_of_ascii c in (48 <=? n)%nat && (n <=? 57)%nat.

Definition digit_value (c : ascii) : Z := Z.of_nat (nat_of_ascii c) - 48.

(** The whitespace [int] skips around an ASCII text: tab, line feed,
    vertical tab, form feed, carriage return and space. *)
Definition is_c_space (c : ascii) : bool :=
  let n := nat_of_ascii c in
  ((9 <=? n)%nat && (n <=? 13)%nat) || (n =? 32)%nat.

Fixpoint lstrip (s : string) : string :=
  match s with
  | String c s' => if is_c_space c then lstrip s' else s
  | EmptyString => EmptyString
  end.

Fixpoint rstrip (s : string) : string :=
  match s with
  | String c s' =>
      match rstrip s' with
      | EmptyString => if is_c_space c then EmptyString else String c EmptyString
      | r => String c r
      end
  | EmptyString => EmptyString
  end.

(** What the script takes from the Python library it runs on and does not
    set itself.  [int_max_str_digits] is the interpreter's limit on the
    digits of a decimal text given to [int] (0: no limit; 4300 by default
    where the limit exists).  [takes_argument] is the decision of [argparse]
    on the token that follows an option on the command line: whether it is
    that option's argument (it is when it does not begin with a dash) or is
    read as another option. *)
Record Library := {
  int_max_str_digits : nat;
  takes_argument : string -> bool
}.

(** Decimal digits, single underscores allowed between two digits; the
    value and the number of digits read. *)
Fixpoint parse_digits (after_digit : bool) (acc : Z) (digits : nat) (s : string)
    : option (Z * nat) :=
  match s with
  | EmptyString => if after_digit then Some (acc, digits) else None
  | String c s' =>
      if is_digit c then parse_digits true (10 * acc + digit_value c) (S digits) s'
      else if Ascii.eqb c "_" && after_digit then parse_digits false acc digits s'
      else None
  end.

(** The digits after the sign: [ValueError] on a malformed text and on more
    digits than the limit allows. *)
Definition parse_number (lib : Library) (s : string) : option Z :=
  match parse_digits false 0 O s with
  | Some (n, digits) =>
      if (0 <? int_max_str_digits lib)%nat && (int_max_str_digits lib <? digits)%nat
      then None else Some n
  | None => None
  end.

(** [int(s)] on an ASCII string: surrounding whitespace, an optional sign,
    decimal digits.  [None] is [ValueError]. *)
Definition py_int (lib : Library) (s : string) : option Z :=
  match lstrip (rstrip s) with
  | String c s' =>
      if Ascii.eqb c "-" then Z.opp <$> parse_number lib s'
      else if Ascii.eqb c "+" then parse_number lib s'
      else parse_number lib (String c s')
  | EmptyString => None
  end.

(** [str.split(sep)] for a one-character separator. *)
Fixpoint split_on (sep : ascii) (s : string) : list string :=
  match s with
  | EmptyString => [EmptyString]
  | String c s' =>
      if Ascii.eqb c sep then EmptyString :: split_on sep s'
      else match split_on sep s' with
           | h :: t => String c h :: t
           | [] => [String c EmptyString]
           end
  end.

(** The values an attribute of [args] can hold. *)
Inductive PyVal :=
| PyNone
| PyInt (n : Z)
| PyStr (s : string).

Definition truthy (v : PyVal) : bool :=
  match v with
  | PyNone => false
  | PyInt n => negb (n =? 0)
  | PyStr s => negb (String.eqb s "")
  end.

(** [v.split(",")]: only [str] has the method. *)
Definition py_split (v : PyVal) : M (list string) :=
  match v with
  | PyStr s => ret (split_on "," s)
  | PyInt _ | PyNone => raise AttributeError
  end.

(** How an option is given its text on the command line: attached with an
    equals sign ([--species=TEXT]) or as the next token ([--species TEXT]). *)
Inductive OptionText :=
| Attached (text : string)
| Separate (text : string).

(** The command line: what is given to [--species] and to [--num_images],
    [None] when the option is absent. *)
Record Argv := {
  argv_species : option OptionText;
  argv_num_images : option OptionText
}.

Record Args := { species : PyVal; num_images : Z }.

(** [type=int]: the text goes through [int]; a [ValueError] makes the
    parser exit with status 2. *)
Definition int_type (lib : Library) (text : string) : M PyVal :=
  match py_int lib text with
  | Some n => ret (PyInt n)
  | None => raise (SystemExit 2)
  end.

(** An option declared with [type=int].  An attached text is converted; a
    separate token is converted when the parser takes it as the option's
    argument, and otherwise the option lacks its argument and the parser
    exits with status 2. *)
Definition int_option (lib : Library) (given : option OptionText) (default : PyVal)
    : M PyVal :=
  match given with
  | None => ret default
  | Some (Attached text) => int_type lib text
  | Some (Separate text) =>
      if takes_argument lib text then int_type lib text else raise (SystemExit 2)
  end.

(** [parser.parse_args()], lines 223-226. *)
Definition parse_args (lib : Library) (argv : Argv) : M Args :=
  sp <- int_option lib (argv_species argv) PyNone ;;
  ni <- int_option lib (argv_num_images argv) (PyInt 100) ;;
  match ni with
  | PyInt n => ret {| species := sp; num_images := n |}
  | _ => raise (SystemExit 2)
  end.

Fixpoint for_each {A} (body : A -> M unit) (l : list A) : M unit :=
  match l with
  | [] => ret tt
  | x :: l' => body x ;;; for_each body l'
  end.

(** The [__main__] block, lines 222-239. *)
Definition main (env : Env) (lib : Library) (fuel : nat) (argv : Argv) : M unit :=
  args <- parse_args lib argv ;;
  if truthy (species args) then
    taxonNameList <- py_split (species args) ;;
    for_each
      (fun taxonName =>
         r <- search_specy env taxonName ;;
         if sp_total_results r >? 0 then
           match sp_results r with
           | specy :: _ => process_specy env specy (num_images args)
           | [] => raise IndexError
           end
         else raise ValueError)
      taxonNameList
  else
    process_indian_oceanic_fish_species env fuel (num_images args).

End Cli.

(** ** Runs of the process *)

(** Any call the process can make, and runs made of such calls. *)
Inductive Call :=
| CallRespectRateLimit
| CallCreateFolder (root name : string)
| CallDownload (url folder : string) (index : nat)
| CallGetObservations (q : ObsQuery)
| CallSearch (query : string)
| CallCachedGetObservations (q : ObsQuery) (folder : string)
| CallProcessSpecy (specy : Species) (nb_img : Z)
| CallReportStats
| CallBulk (fuel : nat) (nb_img : Z)
| CallMain (lib : Cli.Library) (fuel : nat) (argv : Cli.Argv).

Definition run_call (env : Env) (c : Call) (st : State) : State :=
  match c with
  | CallRespectRateLimit => snd (respect_rate_limit st)
  | CallCreateFolder root name => snd (create_species_folder root name st)
  | CallDownload url folder i => snd (download_and_process_photo env url folder i st)
  | CallGetObservations q => snd (get_observations env q st)
  | CallSearch query => snd (search_specy env query st)
  | CallCachedGetObservations q folder => snd (cached_get_observations env q folder st)
  | CallProcessSpecy specy nb_img => snd (process_specy env specy nb_img st)
  | CallReportStats => snd (report_stats st)
  | CallBulk fuel nb_img => snd (process_indian_oceanic_fish_species env fuel nb_img st)
  | CallMain lib fuel argv => snd (Cli.main env lib fuel argv st)
  end.

Definition run_calls (env : Env) (cs : list Call) (st : State) : State :=
  fold_left (fun st c => run_call env c st) cs st.

(** ** The rate limiter over time *)

(** Callers arrive one after the other, each [d] seconds after the previous
    one got through, and call [respect_rate_limit] under the lock.  The
    result lists, per caller, the time at which its call returned and the
    counter it left. *)
Fixpoint acquisitions (delays : list Z) (st : State) : list (Z * Z) :=
  match delays with
  | [] => []
  | d :: delays' =>
      let st := set_clock (clock st + d) st in
      let st := snd ((lock_acquire ;;; respect_rate_limit ;;; lock_release) st) in
      (clock st, request_count st) :: acquisitions delays' st
  end.

(** Number of calls that returned in the window [[t, t + 60)]. *)
Definition completions_in_window (t : Z) (l : list (Z * Z)) : nat :=
  length (List.filter (fun c => (t <=? fst c) && (fst c <? t + 60)) l).

(** ** Auxiliary definitions: invariants, final states, sample data *)

(** [count_files] on an existing folder with contents [d]. *)
Definition count_regular (d : gmap string Entry) : Z :=
  Z.of_nat (length (List.filter (fun e => is_regular (snd e)) (map_to_list d))).

(** A property of the state that a computation keeps, however it ends. *)
Definition preserves {A} (P : State -> Prop) (m : M A) : Prop :=
  forall st, P st -> P (snd (m st)).

(** The invariant of the globals: the species total is never written, and
    the request counter stays within the window size. *)
Definition globals_inv (st : State) : Prop :=
  total_results st = 0 /\ 0 <= request_count st <= 60.

(** What [respect_rate_limit] adds to the trace. *)
Definition rate_limit_events (st : State) : list Event :=
  if request_count st >=? 60 then [EvPrint MsgRateLimit; EvSleep 60] else [].

(** Every character of [s] satisfies [p]. *)
Fixpoint string_forall (p : ascii -> bool) (s : string) : bool :=
  match s with
  | EmptyString => true
  | String c s' => p c && string_forall p s'
  end.

(** The first character of [s] satisfies [p]. *)
Definition starts_with (p : ascii -> bool) (s : string) : bool :=
  match s with
  | EmptyString => false
  | String c _ => p c
  end.

(** Neither whitespace nor a capital letter. *)
Definition key_char (c : ascii) : bool :=
  negb (Text.is_space c) && negb (Text.is_upper c).

Definition not_space (c : ascii) : bool := negb (Text.is_space c).

(** An environment in which every service fails. *)
Definition offline : Env :=
  {| http_get := fun _ _ => inl RequestException;
     api_observations := fun _ _ => inl RequestException;
     api_search := fun _ _ => inl RequestException;
     api_species_counts := fun _ _ => inl RequestException |}.

(** Thirty regular files named like the script's photos. *)
Definition thirty_photos : gmap string Entry :=
  list_to_map (List.map (fun i => (photo_name i "JPEG", Other true)) (seq 0 30)).

Definition blue_tang : Species := {| taxon_id := 47; taxon_name := "Blue Tang" |}.

Definition votes_query : ObsQuery :=
  {| q_taxon_id := 47; q_order_by := "votes"; q_quality_grade := "research";
     q_photos := true; q_per_page := 100 |}.

Definition one_result : ObsJson :=
  {| obs_total_results := Some 1;
     obs_results := Some [ {| observation_photos := ["https://img/1/square.jpg"] |} ] |}.

(** The observation service answers the first request and fails afterwards. *)
Definition answers_once : Env :=
  {| http_get := fun _ _ => inl RequestException;
     api_observations := fun _ n =>
       match n with O => inr one_result | S _ => inl RequestException end;
     api_search := fun _ _ => inl RequestException;
     api_species_counts := fun _ _ => inl RequestException |}.

(** A server that answers every photo download with [resp]. *)
Definition photo_server (resp : HttpResponse) : Env :=
  {| http_get := fun _ _ => inr resp;
     api_observations := fun _ _ => inl RequestException;
     api_search := fun _ _ => inl RequestException;
     api_species_counts := fun _ _ => inl RequestException |}.



Definition cmyk_image : Image :=
  {| img_format := "JPEG"; img_width := 640; img_height := 480; img_mode := "CMYK"; img_loads := true |}.

Definition cmyk_jpeg : HttpResponse :=
  {| status_code := 200; content_type := Some "image/jpeg"; content := Some cmyk_image |}.


Definition empty_folder : State :=
  initial_state ∅ {[ "fish_photos/blue_tang" := ∅ ]}.

Definition obs_query (specy : Species) (nb_img : Z) : ObsQuery :=
  {| q_taxon_id := taxon_id specy; q_order_by := "votes";
     q_quality_grade := "research"; q_photos := true; q_per_page := nb_img |}.

Definition species_folder_of (specy : Species) : string :=
  Text.path_join root_folder (to_snake_case (taxon_name specy)).

(** The state after a miss whose query failed: the rate limiter has been
    passed and the request sent; nothing is stored. *)
Definition failed_fetch (q : ObsQuery) (key : string) (st : State) : State :=
  {| request_count := if request_count st >=? 60 then 0 else request_count st + 1;
     species_done := species_done st;
     total_results := total_results st;
     cache := cache st;
     fs := fs st;
     clock := if request_count st >=? 60 then clock st + 60 else clock st;
     net_calls := S (net_calls st);
     trace := trace st ++ [EvCacheLookup key; EvLock] ++ rate_limit_events st
                ++ [EvUnlock; EvObsRequest q] |}.

(** The state after [create_species_folder]. *)
Definition ensure_folder (folder : string) (st : State) : State :=
  match fs st !! folder with
  | Some _ => st
  | None => set_fs (<[folder := ∅]> (fs st)) st
  end.

(** Ten regular files left by an earlier run. *)
Definition ten_files : gmap string Entry :=
  list_to_map
    (List.map (fun i : nat => ("old_" ++ pretty i ++ ".jpg", Other true)) (seq 0 10)).

Definition plain_image : Image :=
  {| img_format := "JPEG"; img_width := 640; img_height := 480; img_mode := "RGB"; img_loads := true |}.

(** The query reports 50 results and returns one observation with a photo;
    every photo download succeeds. *)
Definition fifty_available : Env :=
  {| http_get := fun _ _ =>
       inr {| status_code := 200; content_type := Some "image/jpeg";
              content := Some plain_image |};
     api_observations := fun _ _ =>
       inr {| obs_total_results := Some 50;
              obs_results :=
                Some [ {| observation_photos := ["https://img/77/square.jpg"] |} ] |};
     api_search := fun _ _ => inl RequestException;
     api_species_counts := fun _ _ => inl RequestException |}.

(** The species-count service reports no species. *)
Definition no_species : Env :=
  {| http_get := fun _ _ => inl RequestException;
     api_observations := fun _ _ => inl RequestException;
     api_search := fun _ _ => inl RequestException;
     api_species_counts := fun _ _ => inr {| sp_total_results := 0; sp_results := [] |} |}.

(** The integer the parser makes of what an option was given, [None] when
    it exits instead. *)
Definition accepted (lib : Cli.Library) (given : Cli.OptionText) : option Z :=
  match given with
  | Cli.Attached text => Cli.py_int lib text
  | Cli.Separate text =>
      if Cli.takes_argument lib text then Cli.py_int lib text else None
  end.

(** The value of [--num_images]: 100 when the option is absent. *)
Definition num_images_of (lib : Cli.Library) (given : option Cli.OptionText) : option Z :=
  match given with
  | None => Some 100
  | Some g => accepted lib g
  end.

(** The text an option was given, in either form. *)
Definition text_of (given : Cli.OptionText) : string :=
  match given with
  | Cli.Attached text => text
  | Cli.Separate text => text
  end.

(** A library with the default digit limit whose parser takes a token as an
    option's argument exactly when it does not begin with a dash; used with
    tokens that do not. *)
Definition sample_library : Cli.Library :=
  {| Cli.int_max_str_digits := 4300;
     Cli.takes_argument := fun text => negb (String.prefix "-" text) |}.

(** The entry called [name] in [folder], if both exist. *)
Definition file_at (d : gmap string (gmap string Entry)) (folder name : string)
    : option Entry :=
  match d !! folder with
  | Some dir => dir !! name
  | None => None
  end.

(** The conditions under which a downloaded payload is accepted. *)
Definition valid_photo (resp : HttpResponse) (ctype : string) (img : Image) : Prop :=
  status_code resp = 200 /\
  content_type resp = Some ctype /\
  Text.contains "image" ctype = true /\
  content resp = Some img /\
  (img_format img = "JPEG" \/ img_format img = "PNG") /\
  img_width img <> 0 /\ img_height img <> 0.

(** [anObs['observation_photos']] is truthy. *)
Definition has_photo (anObs : Observation) : bool :=
  match observation_photos anObs with
  | [] => false
  | _ :: _ => true
  end.

(** The medium-resolution URL of the first photo of an observation. *)
Definition first_photo_medium (anObs : Observation) : string :=
  Text.replace_first "square" "medium" (List.hd "" (observation_photos anObs)).

(** The photo batch of one species, lines 164-165. *)
Definition photo_batch (env : Env) (species_folder : string) (photo_urls : list string)
    : M unit :=
  executor_map
    (fun url => download_and_process_photo env (snd url) species_folder (fst url))
    (enumerate photo_urls).


(** Lines 149-173 of [process_specy]: what follows the creation of the
    folder. *)
Definition process_specy_body (env : Env) (specy : Species) (nb_img : Z)
    (species_folder : string) : M unit :=
  obs <- cached_get_observations env (obs_query specy nb_img) species_folder ;;
  total_results_local <- obs_get_total_results obs ;;
  obs <- obs_get_results obs ;;
  let photo_urls := extract_photo_urls obs in
  num_images <- count_files species_folder ;;
  (if (num_images <? 100) && (num_images <? total_results_local) then
     photo_batch env species_folder photo_urls
   else ret tt) ;;;
  with_lock incr_species_done ;;;
  num_images <- count_files species_folder ;;
  print (MsgDone (to_snake_case (taxon_name specy)) num_images) ;;;
  report_stats.

(** A computation that ends with an exception from every state in which
    the globals are as a fresh process keeps them. *)
Definition raises_always {A} (m : M A) : Prop :=
  forall st, globals_inv st -> exists e, fst (m st) = Raise e.

(** The species-count service answers every page with no species while
    reporting [total] of them. *)
Definition empty_pages (total : Z) : Env :=
  {| http_get := fun _ _ => inl RequestException;
     api_observations := fun _ _ => inl RequestException;
     api_search := fun _ _ => inl RequestException;
     api_species_counts := fun _ _ =>
       inr {| sp_total_results := total; sp_results := [] |} |}.

(** The exceptions that can leave the enumeration of the species: a failure
    of the species-count service, or the loop not ending. *)
Definition enumeration_failure (env : Env) (e : Exn) : Prop :=
  e = OutOfFuel \/ exists page n, api_species_counts env page n = inl e.

(** The observation service fails on the first request of the process and
    answers afterwards. *)
Definition fails_once : Env :=
  {| http_get := fun _ _ => inl RequestException;
     api_observations := fun _ n =>
       match n with O => inl RequestException | S _ => inr one_result end;
     api_search := fun _ _ => inl RequestException;
     api_species_counts := fun _ _ => inl RequestException |}.

(** ** Reasoning principles *)

Lemma path_exists_some folder d st :
  fs st !! folder = Some d -> path_exists folder st = (Ok true, st).
Proof.
  intros H. unfold path_exists, bind, get, ret.
  rewrite bool_decide_eq_true_2; [reflexivity | rewrite H; eauto].
Qed.

Lemma path_exists_none folder st :
  fs st !! folder = None -> path_exists folder st = (Ok false, st).
Proof.
  intros H. unfold path_exists, bind, get, ret.
  rewrite bool_decide_eq_false_2; [reflexivity |].
  rewrite H. intros [? ?]; discriminate.
Qed.

Lemma count_files_some folder d st :
  fs st !! folder = Some d -> count_files folder st = (Ok (count_regular d), st).
Proof.
  intros H. unfold count_files, listdir, bind, get, ret. rewrite H. reflexivity.
Qed.

Section Preserves.
Context (P : State -> Prop).

Lemma preserves_ret {A} (a : A) : preserves P (ret a).
Proof. intros st H. exact H. Qed.

Lemma preserves_raise {A} (e : Exn) : preserves P (@raise A e).
Proof. intros st H. exact H. Qed.

Lemma preserves_get : preserves P get.
Proof. intros st H. exact H. Qed.

Lemma preserves_modify (f : State -> State) :
  (forall st, P st -> P (f st)) -> preserves P (modify f).
Proof. intros Hf st H. apply Hf, H. Qed.

Lemma preserves_bind {A B} (m : M A) (k : A -> M B) :
  preserves P m -> (forall a, preserves P (k a)) -> preserves P (bind m k).
Proof.
  intros Hm Hk st H. unfold bind. specialize (Hm st H).
  destruct (m st) as [[a | e] st']; simpl in *.
  - apply Hk, Hm.
  - exact Hm.
Qed.

Lemma preserves_try {A} (m : M A) filter h :
  preserves P m -> (forall e, preserves P (h e)) -> preserves P (try_except m filter h).
Proof.
  intros Hm Hh st H. unfold try_except. specialize (Hm st H).
  destruct (m st) as [[a | e] st']; simpl in *; [exact Hm |].
  destruct (filter e); [apply Hh, Hm | exact Hm].
Qed.

Lemma preserves_executor_map {A} (f : A -> M unit) tasks :
  (forall t, preserves P (f t)) -> preserves P (executor_map f tasks).
Proof.
  intros Hf. induction tasks as [| t tasks IH]; intros st H; simpl.
  - exact H.
  - apply IH, Hf, H.
Qed.

Lemma preserves_for_each {A} (f : A -> M unit) l :
  (forall x, preserves P (f x)) -> preserves P (Cli.for_each f l).
Proof.
  intros Hf. induction l as [| x l IH]; simpl.
  - apply preserves_ret.
  - apply preserves_bind; [apply Hf | intros _; exact IH].
Qed.
End Preserves.

Ltac inv_side :=
  let st := fresh "st" in let H := fresh "H" in
  intros st H; unfold globals_inv in H |- *; simpl; try exact H; try lia.

Ltac pres_step :=
  lazymatch goal with
  | |- preserves _ (ret _) => apply preserves_ret
  | |- preserves _ (raise _) => apply preserves_raise
  | |- preserves _ get => apply preserves_get
  | |- preserves _ (modify _) => apply preserves_modify; inv_side
  | |- preserves _ (bind _ _) => apply preserves_bind; [| intros ?]
  | |- preserves _ (try_except _ _ _) => apply preserves_try; [| intros ?]
  | |- preserves _ (executor_map _ _) => apply preserves_executor_map; intros ?
  | |- preserves _ (Cli.for_each _ _) => apply preserves_for_each; intros ?
  | |- preserves _ (if ?b then _ else _) => destruct b
  | |- preserves _ (match ?x with _ => _ end) => destruct x
  | |- preserves _ (let _ := _ in _) => cbv zeta
  end.

Ltac pres := repeat pres_step; eauto with pres.

Create HintDb pres.

Lemma emit_inv e : preserves globals_inv (emit e).
Proof. unfold emit. pres. Qed.
#[export] Hint Resolve emit_inv : pres.

Lemma print_inv m : preserves globals_inv (print m).
Proof. apply emit_inv. Qed.

Lemma lock_acquire_inv : preserves globals_inv lock_acquire.
Proof. apply emit_inv. Qed.

Lemma lock_release_inv : preserves globals_inv lock_release.
Proof. apply emit_inv. Qed.
#[export] Hint Resolve print_inv lock_acquire_inv lock_release_inv : pres.

Lemma sleep_inv n : preserves globals_inv (sleep n).
Proof. unfold sleep. pres. Qed.
#[export] Hint Resolve sleep_inv : pres.

Lemma with_lock_inv {A} (body : M A) :
  preserves globals_inv body -> preserves globals_inv (with_lock body).
Proof.
  intros Hb st H. unfold with_lock.
  assert (Hs : preserves globals_inv (lock_acquire ;;; body)) by pres.
  specialize (Hs st H).
  destruct ((lock_acquire ;;; body) st) as [r st']; simpl in *.
  apply lock_release_inv, Hs.
Qed.

Lemma request_inv {A} ev (oracle : nat -> Exn + A) :
  preserves globals_inv (request ev oracle).
Proof. unfold request. pres. Qed.
#[export] Hint Resolve request_inv : pres.

(** What [respect_rate_limit] does to the counter. *)
Lemma respect_rate_limit_count st :
  request_count (snd (respect_rate_limit st)) =
  if request_count st >=? 60 then 0 else request_count st + 1.
Proof.
  unfold respect_rate_limit, bind, get.
  destruct (request_count st >=? 60); reflexivity.
Qed.

(** The whole effect of [respect_rate_limit]. *)
Lemma respect_rate_limit_run st :
  respect_rate_limit st =
    (Ok tt,
     {| request_count := if request_count st >=? 60 then 0 else request_count st + 1;
        species_done := species_done st;
        total_results := total_results st;
        cache := cache st;
        fs := fs st;
        clock := if request_count st >=? 60 then clock st + 60 else clock st;
        net_calls := net_calls st;
        trace := trace st ++ rate_limit_events st |}).
Proof.
  unfold respect_rate_limit, rate_limit_events, sleep, print, emit, bind, get, modify.
  destruct (request_count st >=? 60); simpl.
  - unfold set_request_count, set_clock, set_trace. simpl.
    rewrite <- app_assoc. reflexivity.
  - unfold set_request_count. rewrite app_nil_r. reflexivity.
Qed.

Lemma respect_rate_limit_total st :
  total_results (snd (respect_rate_limit st)) = total_results st.
Proof.
  unfold respect_rate_limit, bind, get.
  destruct (request_count st >=? 60); reflexivity.
Qed.

Lemma respect_rate_limit_inv : preserves globals_inv respect_rate_limit.
Proof.
  intros st [Ht Hr]. split.
  - rewrite respect_rate_limit_total. exact Ht.
  - rewrite respect_rate_limit_count.
    destruct (request_count st >=? 60) eqn:E; [lia |].
    rewrite Z.geb_leb in E. apply Z.leb_gt in E. lia.
Qed.
#[export] Hint Resolve respect_rate_limit_inv : pres.

Lemma path_exists_inv folder : preserves globals_inv (path_exists folder).
Proof. unfold path_exists. pres. Qed.

Lemma makedirs_inv folder : preserves globals_inv (makedirs folder).
Proof. unfold makedirs. pres. Qed.

Lemma listdir_inv folder : preserves globals_inv (listdir folder).
Proof. unfold listdir. pres. Qed.
#[export] Hint Resolve path_exists_inv makedirs_inv listdir_inv : pres.

Lemma count_files_inv folder : preserves globals_inv (count_files folder).
Proof. unfold count_files. pres. Qed.

Lemma create_species_folder_inv root name :
  preserves globals_inv (create_species_folder root name).
Proof. unfold create_species_folder. pres. Qed.

Lemma image_load_inv img : preserves globals_inv (image_load img).
Proof. unfold image_load. pres. Qed.
#[export] Hint Resolve image_load_inv : pres.

Lemma convert_rgb_inv img : preserves globals_inv (convert_rgb img).
Proof. unfold convert_rgb. pres. Qed.
#[export] Hint Resolve convert_rgb_inv : pres.

Lemma image_save_inv img folder name : preserves globals_inv (image_save img folder name).
Proof. unfold image_save. pres. Qed.

Lemma image_open_inv r : preserves globals_inv (image_open r).
Proof. unfold image_open. pres. Qed.

Lemma header_content_type_inv r : preserves globals_inv (header_content_type r).
Proof. unfold header_content_type. pres. Qed.
#[export] Hint Resolve count_files_inv create_species_folder_inv image_save_inv
  image_open_inv header_content_type_inv : pres.

Lemma download_and_process_photo_inv env url folder i :
  preserves globals_inv (download_and_process_photo env url folder i).
Proof. unfold download_and_process_photo. pres. Qed.

Lemma get_observations_inv env q : preserves globals_inv (get_observations env q).
Proof. unfold get_observations. pres. Qed.

Lemma search_specy_inv env query : preserves globals_inv (search_specy env query).
Proof. unfold search_specy. pres. Qed.
#[export] Hint Resolve download_and_process_photo_inv get_observations_inv
  search_specy_inv : pres.

Lemma cached_get_observations_inv env q folder :
  preserves globals_inv (cached_get_observations env q folder).
Proof. unfold cached_get_observations. pres. Qed.

Lemma incr_species_done_inv : preserves globals_inv incr_species_done.
Proof. unfold incr_species_done. pres. Qed.

Lemma report_stats_inv : preserves globals_inv report_stats.
Proof. unfold report_stats. pres. Qed.

Lemma obs_get_total_results_inv obs : preserves globals_inv (obs_get_total_results obs).
Proof. unfold obs_get_total_results. pres. Qed.

Lemma obs_get_results_inv obs : preserves globals_inv (obs_get_results obs).
Proof. unfold obs_get_results. pres. Qed.
#[export] Hint Resolve cached_get_observations_inv incr_species_done_inv
  report_stats_inv obs_get_total_results_inv obs_get_results_inv with_lock_inv : pres.

Lemma process_specy_inv env specy nb_img :
  preserves globals_inv (process_specy env specy nb_img).
Proof. unfold process_specy. pres. Qed.
#[export] Hint Resolve process_specy_inv : pres.

Lemma get_observation_species_counts_inv env page :
  preserves globals_inv (get_observation_species_counts env page).
Proof. unfold get_observation_species_counts. pres. Qed.
#[export] Hint Resolve get_observation_species_counts_inv : pres.

Lemma fetch_pages_inv env fuel : forall page total all_species,
  preserves globals_inv (fetch_pages env fuel page total all_species).
Proof.
  induction fuel as [| fuel IH]; intros page total all_species; simpl.
  - pres.
  - destruct (Z.of_nat (length all_species) <? total); pres.
Qed.
#[export] Hint Resolve fetch_pages_inv : pres.

Lemma process_indian_oceanic_fish_species_inv env fuel nb_img :
  preserves globals_inv (process_indian_oceanic_fish_species env fuel nb_img).
Proof. unfold process_indian_oceanic_fish_species. pres. Qed.
#[export] Hint Resolve process_indian_oceanic_fish_species_inv : pres.

Lemma main_inv env lib fuel argv : preserves globals_inv (Cli.main env lib fuel argv).
Proof.
  unfold Cli.main, Cli.parse_args, Cli.int_option, Cli.int_type, Cli.py_split. pres.
Qed.

Lemma run_call_inv env c st : globals_inv st -> globals_inv (run_call env c st).
Proof.
  intros H. destruct c; simpl.
  - apply respect_rate_limit_inv, H.
  - apply create_species_folder_inv, H.
  - apply download_and_process_photo_inv, H.
  - apply get_observations_inv, H.
  - apply search_specy_inv, H.
  - apply cached_get_observations_inv, H.
  - apply process_specy_inv, H.
  - apply report_stats_inv, H.
  - apply process_indian_oceanic_fish_species_inv, H.
  - apply main_inv, H.
Qed.

Lemma run_calls_inv env cs : forall st,
  globals_inv st -> globals_inv (run_calls env cs st).
Proof.
  unfold run_calls. induction cs as [| c cs IH]; intros st H; simpl.
  - exact H.
  - apply IH, run_call_inv, H.
Qed.

Lemma initial_state_inv c d : globals_inv (initial_state c d).
Proof. unfold globals_inv. simpl. lia. Qed.

(** ** Folder keys *)

Example to_snake_case_space : to_snake_case "Blue Tang" = "blue_tang".
Proof. reflexivity. Qed.

Example to_snake_case_runs : to_snake_case "aB  cDE" = "a_b_c_de".
Proof. reflexivity. Qed.

Lemma lower_char_key c : not_space c = true -> key_char (Text.lower_char c) = true.
Proof.
  destruct c as [[] [] [] [] [] [] [] []]; vm_compute; intros H;
    first [reflexivity | discriminate H].
Qed.

Lemma lower_key s :
  string_forall not_space s = true -> string_forall key_char (Text.lower s) = true.
Proof.
  induction s as [| c s IH]; simpl; [reflexivity |].
  intros H. apply andb_true_iff in H as [Hc Hs].
  rewrite lower_char_key by exact Hc. simpl. apply IH, Hs.
Qed.

Lemma sub_spaces_not_space s : forall b,
  string_forall not_space (Text.sub_spaces b s) = true.
Proof.
  induction s as [| c s IH]; intros b; simpl; [reflexivity |].
  destruct (Text.is_space c) eqn:E.
  - destruct b; simpl; apply IH.
  - simpl. unfold not_space at 1. rewrite E. simpl. apply IH.
Qed.

Lemma sub_camel_not_space s :
  string_forall not_space s = true ->
  string_forall not_space (Text.sub_camel s) = true.
Proof.
  enough (H : (string_forall not_space s = true ->
               string_forall not_space (Text.sub_camel s) = true) /\
              (forall c, string_forall not_space (String c s) = true ->
                         string_forall not_space (Text.sub_camel (String c s)) = true))
    by apply H.
  induction s as [| c2 s [IH1 IH2]].
  - split; [reflexivity |]. intros c H. exact H.
  - split; [apply IH2 |].
    intros c1 H. cbn [Text.sub_camel].
    cbn [string_forall] in H.
    apply andb_true_iff in H as [H1 H].
    pose proof H as H'. apply andb_true_iff in H' as [H2 Hs].
    destruct (Text.is_lower c1 && Text.is_upper c2).
    + cbn [string_forall]. rewrite H1, H2. simpl. apply IH1, Hs.
    + cbn [string_forall]. rewrite H1. simpl. apply IH2.
      cbn [string_forall]. exact H.
Qed.

Lemma char_classes c :
  (Text.is_space c = true -> Text.is_upper c = false /\ Text.is_lower c = false) /\
  (Text.is_upper c = true -> Text.is_lower c = false) /\
  (Text.is_upper c = true ->
   nat_of_ascii (Text.lower_char c) = (nat_of_ascii c + 32)%nat) /\
  (Text.is_upper c = false -> Text.lower_char c = c).
Proof.
  destruct c as [[] [] [] [] [] [] [] []]; vm_compute;
    repeat split; first [reflexivity | congruence].
Qed.

Lemma sub_spaces_after_run ws rest :
  string_forall Text.is_space ws = true ->
  Text.sub_spaces true (ws ++ rest) = Text.sub_spaces true rest.
Proof.
  induction ws as [| c ws IH]; intros H; [reflexivity |].
  cbn [string_forall] in H. apply andb_true_iff in H as [Hc Hws].
  change (String c ws ++ rest) with (String c (ws ++ rest)).
  cbn [Text.sub_spaces]. rewrite Hc. apply IH, Hws.
Qed.

Lemma sub_spaces_restart rest :
  starts_with Text.is_space rest = false ->
  Text.sub_spaces true rest = Text.sub_spaces false rest.
Proof.
  destruct rest as [| c rest]; [reflexivity |].
  cbn [starts_with Text.sub_spaces]. intros H. rewrite H. reflexivity.
Qed.

Lemma sub_camel_no_boundary c s :
  Text.is_lower c && starts_with Text.is_upper s = false ->
  Text.sub_camel (String c s) = String c (Text.sub_camel s).
Proof.
  destruct s as [| c2 s]; [reflexivity |].
  cbn [starts_with Text.sub_camel]. intros H. rewrite H. reflexivity.
Qed.

Lemma sub_spaces_starts_upper rest :
  starts_with Text.is_upper (Text.sub_spaces false rest) = starts_with Text.is_upper rest.
Proof.
  destruct rest as [| c rest]; [reflexivity |].
  cbn [Text.sub_spaces starts_with].
  destruct (Text.is_space c) eqn:E; [| reflexivity].
  destruct (proj1 (char_classes c) E) as [Hu _]. rewrite Hu. reflexivity.
Qed.

(** C7. [to_snake_case] is a function of the display name alone, and it
    sends "Blue Tang", "BlueTang" and "blue_tang" to "blue_tang".  For
    every name the key holds no whitespace and no capital letter, and the
    key is determined character by character: the empty name has the empty
    key; a run of whitespace becomes one underscore; a small letter followed
    by a capital gets an underscore after it; every other character is kept,
    a capital as its small letter. *)
Theorem to_snake_case_folder_key :
  to_snake_case "Blue Tang" = "blue_tang" /\
  to_snake_case "BlueTang" = "blue_tang" /\
  to_snake_case "blue_tang" = "blue_tang" /\
  (forall name, string_forall key_char (to_snake_case name) = true) /\
  to_snake_case "" = "" /\
  (forall w ws rest,
     Text.is_space w = true -> string_forall Text.is_space ws = true ->
     starts_with Text.is_space rest = false ->
     to_snake_case (String w (ws ++ rest)) = String "_" (to_snake_case rest)) /\
  (forall l u rest,
     Text.is_lower l = true -> Text.is_upper u = true ->
     to_snake_case (String l (String u rest)) =
     String l (String "_" (to_snake_case (String u rest)))) /\
  (forall c rest,
     Text.is_space c = false ->
     Text.is_lower c && starts_with Text.is_upper rest = false ->
     to_snake_case (String c rest) = String (Text.lower_char c) (to_snake_case rest)) /\
  (forall c, Text.is_upper c = true ->
     nat_of_ascii (Text.lower_char c) = (nat_of_ascii c + 32)%nat) /\
  (forall c, Text.is_upper c = false -> Text.lower_char c = c).
Proof.
  assert (Hother : forall c rest,
     Text.is_space c = false ->
     Text.is_lower c && starts_with Text.is_upper rest = false ->
     to_snake_case (String c rest) = String (Text.lower_char c) (to_snake_case rest)).
  { intros c rest Hs Hb. unfold to_snake_case.
    cbn [Text.sub_spaces]. rewrite Hs.
    rewrite sub_camel_no_boundary by (rewrite sub_spaces_starts_upper; exact Hb).
    reflexivity. }
  split; [reflexivity |]. split; [reflexivity |]. split; [reflexivity |].
  split.
  { intros name. unfold to_snake_case.
    apply lower_key, sub_camel_not_space, sub_spaces_not_space. }
  split; [reflexivity |].
  split.
  { intros w ws rest Hw Hws Hrest. unfold to_snake_case.
    cbn [Text.sub_spaces]. rewrite Hw.
    rewrite (sub_spaces_after_run ws rest Hws), (sub_spaces_restart rest Hrest).
    rewrite sub_camel_no_boundary by reflexivity. reflexivity. }
  split.
  { intros l u rest Hl Hu.
    assert (Hls : Text.is_space l = false).
    { destruct (Text.is_space l) eqn:E; [| reflexivity].
      destruct (proj1 (char_classes l) E) as [_ Hc]. congruence. }
    assert (Hus : Text.is_space u = false).
    { destruct (Text.is_space u) eqn:E; [| reflexivity].
      destruct (proj1 (char_classes u) E) as [Hc _]. congruence. }
    assert (Hul : Text.is_lower u = false)
      by (apply (proj1 (proj2 (char_classes u))), Hu).
    assert (Hlu : Text.is_upper l = false).
    { destruct (Text.is_upper l) eqn:E; [| reflexivity].
      pose proof (proj1 (proj2 (char_classes l)) E). congruence. }
    rewrite (Hother u rest Hus) by (rewrite Hul; reflexivity).
    unfold to_snake_case. cbn [Text.sub_spaces]. rewrite Hls, Hus.
    cbn [Text.sub_camel]. rewrite Hl, Hu. cbn [andb Text.lower].
    rewrite (proj2 (proj2 (proj2 (char_classes l))) Hlu). reflexivity. }
  split; [exact Hother |].
  split; intros c H; apply (char_classes c); exact H.
Qed.

Lemma to_snake_case_folder_key_witness :
  to_snake_case "  Tang" = String "_" (to_snake_case "Tang") /\
  to_snake_case "eTang" = String "e" (String "_" (to_snake_case "Tang")) /\
  to_snake_case "Tang" = String "t" (to_snake_case "ang").
Proof.
  destruct to_snake_case_folder_key as (_ & _ & _ & _ & _ & Hrun & Hcamel & Hother & _).
  split; [| split].
  - apply (Hrun " "%char " " "Tang"); reflexivity.
  - apply (Hcamel "e"%char "T"%char "ang"); reflexivity.
  - apply (Hother "T"%char "ang"); reflexivity.
Defined.

(** ** The progress report *)

(** C9. In every run of a fresh process the global [total_results] is
    still 0, whatever calls were made (the species processor and the bulk
    enumerator included), so [report_stats] raises [ZeroDivisionError]. *)
Theorem report_stats_divides_by_zero env cs c d :
  let st := run_calls env cs (initial_state c d) in
  total_results st = 0 /\ fst (report_stats st) = Raise ZeroDivisionError.
Proof.
  intros st.
  assert (H : total_results st = 0).
  { apply (run_calls_inv env cs (initial_state c d)), initial_state_inv. }
  split; [exact H |].
  unfold report_stats, bind, get, print, emit, modify. simpl.
  rewrite H. reflexivity.
Qed.

(** ** The rate limiter *)

(** C6, as stated, fails: after sixty calls the counter is 60 and the next
    call of [respect_rate_limit] brings it down to 0. *)
Lemma request_count_decreases :
  let st := run_calls offline (replicate 60 CallRespectRateLimit) (initial_state ∅ ∅) in
  request_count st = 60 /\
  request_count (run_call offline CallRespectRateLimit st) = 0 /\
  request_count (run_call offline CallRespectRateLimit st) < request_count st.
Proof. vm_compute. repeat split; reflexivity. Qed.

(** C6, amended. [respect_rate_limit] adds one to the counter while it is
    below 60 and resets it to 0 once it has reached 60; in every run of a
    fresh process the counter stays between 0 and 60. *)
Theorem request_count_window :
  (forall st,
     request_count (snd (respect_rate_limit st)) =
     if request_count st >=? 60 then 0 else request_count st + 1) /\
  (forall env cs c d,
     0 <= request_count (run_calls env cs (initial_state c d)) <= 60).
Proof.
  split; [exact respect_rate_limit_count |].
  intros env cs c d.
  apply (run_calls_inv env cs (initial_state c d)), initial_state_inv.
Qed.

(** C2, on the code: 121 callers arrive back to back in a fresh process.
    The 61st sleeps, returns at time 60 and leaves the counter at 0, so its
    request is not recorded; the sixty callers after it pass at once, and 61
    calls have returned within the window that starts at time 60. *)
Theorem rate_limit_window_overrun :
  let l := acquisitions (replicate 121 0) (initial_state ∅ ∅) in
  nth 59 l (0, 0) = (0, 60) /\
  nth 60 l (0, 0) = (60, 0) /\
  nth 120 l (0, 0) = (60, 60) /\
  completions_in_window 60 l = 61%nat.
Proof. vm_compute. repeat split; reflexivity. Qed.

(** ** The species processor: resume *)

(** C3. A species whose folder exists and holds at least 30 regular files
    is skipped: the call returns normally, [species_done] grows by one
    between taking and releasing the lock, and nothing else happens: no
    request, no cache access, no change to the cache, the disk, the request
    counter or the clock. *)
Theorem process_specy_skips_satisfied env specy nb_img st d :
  fs st !! Text.path_join root_folder (to_snake_case (taxon_name specy)) = Some d ->
  30 <= count_regular d ->
  process_specy env specy nb_img st =
    (Ok tt,
     {| request_count := request_count st;
        species_done := species_done st + 1;
        total_results := total_results st;
        cache := cache st;
        fs := fs st;
        clock := clock st;
        net_calls := net_calls st;
        trace := trace st ++ [EvLock; EvSpeciesDone; EvUnlock] |}).
Proof.
  intros Hfs Hn. unfold process_specy. cbv zeta. unfold bind at 1.
  rewrite (path_exists_some _ d) by exact Hfs.
  unfold bind at 1. unfold bind at 1.
  rewrite (count_files_some _ d) by exact Hfs.
  unfold ret at 1.
  replace (count_regular d >=? 30) with true
    by (symmetry; rewrite Z.geb_leb; apply Z.leb_le; exact Hn).
  unfold with_lock, incr_species_done, lock_acquire, lock_release, bind, emit, modify.
  unfold set_trace, set_species_done. simpl.
  rewrite <- !app_assoc. reflexivity.
Qed.

Lemma process_specy_skips_satisfied_witness :
  let st := initial_state ∅ {[ "fish_photos/blue_tang" := thirty_photos ]} in
  let r := process_specy offline blue_tang 100 st in
  fst r = Ok tt /\ species_done (snd r) = 1 /\ net_calls (snd r) = O /\
  fs (snd r) = fs st /\ trace (snd r) = [EvLock; EvSpeciesDone; EvUnlock].
Proof.
  intros st r.
  assert (H : r = (Ok tt,
     {| request_count := request_count st;
        species_done := species_done st + 1;
        total_results := total_results st;
        cache := cache st;
        fs := fs st;
        clock := clock st;
        net_calls := net_calls st;
        trace := trace st ++ [EvLock; EvSpeciesDone; EvUnlock] |})).
  { apply (process_specy_skips_satisfied offline blue_tang 100 st thirty_photos).
    - vm_compute. reflexivity.
    - apply Z.leb_le. vm_compute. reflexivity. }
  rewrite H. simpl. repeat split; reflexivity.
Defined.

(** ** The response cache *)

(** C4. A hit returns the stored response and only adds the lookup and its
    message to the trace: no lock, no rate limiter, no request, the request
    counter and the clock untouched.  After a miss whose query succeeds, a
    second fetch for the same key returns the same response, and the two
    fetches together sent exactly one request. *)
Theorem cached_get_observations_once env q key :
  (forall st v,
     cache st !! key = Some v ->
     cached_get_observations env q key st =
       (Ok v, set_trace (trace st ++ [EvCacheLookup key; EvPrint (MsgCacheUsed key)]) st)) /\
  (forall st res,
     cache st !! key = None ->
     api_observations env q (net_calls st) = inr res ->
     let r1 := cached_get_observations env q key st in
     let r2 := cached_get_observations env q key (snd r1) in
     fst r1 = Ok res /\ fst r2 = Ok res /\
     net_calls (snd r1) = S (net_calls st) /\
     net_calls (snd r2) = S (net_calls st) /\
     request_count (snd r2) = request_count (snd r1) /\
     clock (snd r2) = clock (snd r1) /\
     trace (snd r2) =
       (trace (snd r1) ++ [EvCacheLookup key; EvPrint (MsgCacheUsed key)])%list).
Proof.
  assert (Hhit : forall st v,
     cache st !! key = Some v ->
     cached_get_observations env q key st =
       (Ok v, set_trace (trace st ++ [EvCacheLookup key; EvPrint (MsgCacheUsed key)]) st)).
  { intros st v H.
    unfold cached_get_observations, bind, get, print, emit, modify, ret. simpl.
    rewrite H. unfold set_trace. simpl. rewrite <- app_assoc. reflexivity. }
  split; [exact Hhit |].
  intros st res Hmiss Hres r1 r2.
  assert (H1 : fst r1 = Ok res /\ cache (snd r1) !! key = Some res /\
               net_calls (snd r1) = S (net_calls st)).
  { subst r1.
    unfold cached_get_observations, get_observations, request, try_except,
      lock_acquire, lock_release, emit, bind, get, modify, ret.
    rewrite Hmiss, respect_rate_limit_run. simpl.
    rewrite Hres. simpl.
    rewrite lookup_insert_eq. repeat split; reflexivity. }
  destruct H1 as (Hr1 & Hc1 & Hn1).
  subst r2. rewrite (Hhit _ _ Hc1). simpl.
  repeat split; try assumption; reflexivity.
Qed.

Lemma cached_get_observations_once_witness :
  let st := initial_state ∅ ∅ in
  let r1 := cached_get_observations answers_once votes_query "fish_photos/blue_tang" st in
  let r2 := cached_get_observations answers_once votes_query "fish_photos/blue_tang" (snd r1) in
  fst r1 = Ok one_result /\ fst r2 = Ok one_result /\ net_calls (snd r2) = 1%nat /\
  request_count (snd r2) = request_count (snd r1).
Proof.
  intros st r1 r2.
  destruct (cached_get_observations_once answers_once votes_query "fish_photos/blue_tang")
    as [Hhit Hmiss].
  destruct (Hmiss st one_result) as (H1 & H2 & _ & H4 & H5 & _).
  - vm_compute. reflexivity.
  - reflexivity.
  - split; [exact H1 | split; [exact H2 | split; [exact H4 | exact H5]]].
Defined.

(** ** The photo downloader *)

Lemma request_run {A} ev (oracle : nat -> Exn + A) st :
  request ev oracle st =
    (match oracle (net_calls st) with inl e => Raise e | inr a => Ok a end,
     set_net_calls (S (net_calls st)) (set_trace (trace st ++ [ev]) st)).
Proof.
  unfold request, bind, get, emit, modify. simpl.
  destruct (oracle (net_calls st)); reflexivity.
Qed.

Example photo_name_jpeg : photo_name 12 "JPEG" = "photo_12.jpeg".
Proof. reflexivity. Qed.



(** ** The species processor: fetch failures and the download gate *)

Lemma create_species_folder_run root name st :
  create_species_folder root name st =
    (Ok (Text.path_join root name),
     match fs st !! Text.path_join root name with
     | Some _ => st
     | None => set_fs (<[Text.path_join root name := ∅]> (fs st)) st
     end).
Proof.
  unfold create_species_folder. cbv zeta. unfold bind at 1.
  destruct (fs st !! Text.path_join root name) as [d |] eqn:E.
  - rewrite (path_exists_some _ d) by exact E. reflexivity.
  - rewrite path_exists_none by exact E. reflexivity.
Qed.

Lemma cached_get_observations_fails env q key st e :
  cache st !! key = None ->
  api_observations env q (net_calls st) = inl e ->
  cached_get_observations env q key st = (Raise e, failed_fetch q key st).
Proof.
  intros Hmiss Hfail.
  unfold cached_get_observations, get_observations, try_except,
    lock_acquire, lock_release, emit, bind, get, modify, ret.
  rewrite Hmiss, respect_rate_limit_run, request_run. simpl.
  rewrite Hfail.
  unfold failed_fetch, set_net_calls, set_trace, rate_limit_events. simpl.
  rewrite <- !app_assoc.
  destruct (is_request_exception e); reflexivity.
Qed.

Lemma fetch_failure_run env specy nb_img st e :
  (forall d, fs st !! species_folder_of specy = Some d -> count_regular d < 30) ->
  cache st !! species_folder_of specy = None ->
  api_observations env (obs_query specy nb_img) (net_calls st) = inl e ->
  process_specy env specy nb_img st =
    (Raise e,
     failed_fetch (obs_query specy nb_img) (species_folder_of specy)
       (ensure_folder (species_folder_of specy) st)).
Proof.
  intros Hlow Hmiss Hfail.
  assert (Hc : cache (ensure_folder (species_folder_of specy) st) !! species_folder_of specy
               = None).
  { unfold ensure_folder. destruct (fs st !! species_folder_of specy); exact Hmiss. }
  assert (Hn : api_observations env (obs_query specy nb_img)
                 (net_calls (ensure_folder (species_folder_of specy) st)) = inl e).
  { unfold ensure_folder. destruct (fs st !! species_folder_of specy); exact Hfail. }
  unfold process_specy. cbv zeta.
  fold (species_folder_of specy). fold (obs_query specy nb_img).
  unfold bind at 1.
  destruct (fs st !! species_folder_of specy) as [d |] eqn:Hfs.
  - rewrite (path_exists_some _ d) by exact Hfs.
    unfold bind at 1. unfold bind at 1.
    rewrite (count_files_some _ d) by exact Hfs.
    unfold ret at 1.
    replace (count_regular d >=? 30) with false
      by (symmetry; rewrite Z.geb_leb; apply Z.leb_gt; apply Hlow; reflexivity).
    unfold bind at 1. rewrite create_species_folder_run.
    fold (species_folder_of specy). fold (ensure_folder (species_folder_of specy) st).
    unfold bind at 1.
    rewrite (cached_get_observations_fails env _ _ _ e Hc Hn). reflexivity.
  - rewrite path_exists_none by exact Hfs.
    unfold bind at 1. unfold ret at 1.
    unfold bind at 1. rewrite create_species_folder_run.
    fold (species_folder_of specy). fold (ensure_folder (species_folder_of specy) st).
    unfold bind at 1.
    rewrite (cached_get_observations_fails env _ _ _ e Hc Hn). reflexivity.
Qed.

(** C1, as stated, fails: with the observation service down, the call for
    one species ends with the exception, [species_done] is still 0, and the
    trace holds no message about the failure. *)
Lemma fetch_failure_escapes :
  let st := initial_state ∅ ∅ in
  let r := process_specy offline blue_tang 100 st in
  fst r = Raise RequestException /\
  fst r <> Ok tt /\
  species_done (snd r) = 0 /\
  species_done (snd r) <> species_done st + 1 /\
  trace (snd r) =
    [EvCacheLookup "fish_photos/blue_tang"; EvLock; EvUnlock;
     EvObsRequest (obs_query blue_tang 100)].
Proof. vm_compute. repeat split; try reflexivity; discriminate. Qed.

(** C1, amended. When the species is not already satisfied, its key is not
    cached and the observation query fails, the failure is not caught by
    the species processor: [process_specy] ends with that exception, nothing
    about it is printed, [species_done] is not incremented, nothing is
    cached, and no photo is requested or saved (the query is the only
    request sent; the folder is created if it was missing).  In a batch the
    pool drops the exception and goes on with the sibling species. *)
Theorem process_specy_fetch_failure env specy nb_img st e :
  (forall d, fs st !! species_folder_of specy = Some d -> count_regular d < 30) ->
  cache st !! species_folder_of specy = None ->
  api_observations env (obs_query specy nb_img) (net_calls st) = inl e ->
  let r := process_specy env specy nb_img st in
  fst r = Raise e /\
  species_done (snd r) = species_done st /\
  cache (snd r) = cache st /\
  net_calls (snd r) = S (net_calls st) /\
  fs (snd r) =
    match fs st !! species_folder_of specy with
    | Some _ => fs st
    | None => <[species_folder_of specy := ∅]> (fs st)
    end /\
  trace (snd r) =
    (trace st ++ [EvCacheLookup (species_folder_of specy); EvLock]
       ++ rate_limit_events st
       ++ [EvUnlock; EvObsRequest (obs_query specy nb_img)])%list /\
  (forall rest : list (Species * Z),
     executor_map (fun a => process_specy env (fst a) (snd a))
       ((specy, nb_img) :: rest) st =
     executor_map (fun a => process_specy env (fst a) (snd a)) rest (snd r)).
Proof.
  intros Hlow Hmiss Hfail r.
  assert (Hpool : forall rest : list (Species * Z),
     executor_map (fun a => process_specy env (fst a) (snd a))
       ((specy, nb_img) :: rest) st =
     executor_map (fun a => process_specy env (fst a) (snd a)) rest (snd r))
    by (intros rest; reflexivity).
  revert Hpool. subst r.
  rewrite (fetch_failure_run env specy nb_img st e Hlow Hmiss Hfail).
  intros Hpool.
  unfold failed_fetch, ensure_folder in *.
  destruct (fs st !! species_folder_of specy); simpl in *;
    repeat split; try reflexivity; exact Hpool.
Qed.

Lemma process_specy_fetch_failure_witness :
  let r := process_specy offline blue_tang 100 (initial_state ∅ ∅) in
  fst r = Raise RequestException /\ species_done (snd r) = 0 /\
  net_calls (snd r) = 1%nat.
Proof.
  intros r.
  destruct (process_specy_fetch_failure offline blue_tang 100 (initial_state ∅ ∅)
              RequestException) as (H1 & H2 & _ & H4 & _).
  - intros d H. vm_compute in H. discriminate H.
  - vm_compute. reflexivity.
  - reflexivity.
  - split; [exact H1 | split; [exact H2 | exact H4]].
Defined.

(** C5, on the code: the target is 5 images and the folder already holds
    10 regular files, yet the photo of the observation is requested and
    saved: line 162 compares the count with the constant 100, not with
    [nb_img]. *)
Theorem download_gate_ignores_target :
  let st := initial_state ∅ {[ "fish_photos/blue_tang" := ten_files ]} in
  let r := process_specy fifty_available blue_tang 5 st in
  count_regular ten_files = 10 /\
  trace (snd r) =
    [EvCacheLookup "fish_photos/blue_tang"; EvLock; EvUnlock;
     EvObsRequest (obs_query blue_tang 5);
     EvCacheStore "fish_photos/blue_tang";
     EvPhotoRequest "https://img/77/medium.jpg";
     EvSave "fish_photos/blue_tang" "photo_0.jpeg";
     EvLock; EvSpeciesDone; EvUnlock;
     EvPrint (MsgDone "blue_tang" 11); EvPrint (MsgRequests 1)] /\
  fs (snd r) !! "fish_photos/blue_tang" =
    Some (<["photo_0.jpeg" := Saved plain_image]> ten_files).
Proof. vm_compute. repeat split; reflexivity. Qed.

(** ** The command line: single-species mode *)

Lemma contains_comma_cons c s :
  Text.contains "," (String c s) = Ascii.eqb c "," || Text.contains "," s.
Proof.
  cbn [Text.contains String.prefix].
  destruct (ascii_dec "," c) as [<- | Hne].
  - destruct s; reflexivity.
  - replace (Ascii.eqb c ",") with false; [destruct s; reflexivity |].
    symmetry. apply Ascii.eqb_neq. congruence.
Qed.

Lemma comma_not_space c : Ascii.eqb c "," = true -> Cli.is_c_space c = false.
Proof. intros H. apply Ascii.eqb_eq in H. subst c. reflexivity. Qed.

Lemma comma_not_digit c : Ascii.eqb c "," = true -> Cli.is_digit c = false.
Proof. intros H. apply Ascii.eqb_eq in H. subst c. reflexivity. Qed.

Lemma rstrip_comma s :
  Text.contains "," s = true -> Text.contains "," (Cli.rstrip s) = true.
Proof.
  induction s as [| c s IH]; [intros H; exact H |].
  rewrite contains_comma_cons. intros H. cbn [Cli.rstrip].
  destruct (Ascii.eqb c ",") eqn:Ec.
  - rewrite (comma_not_space c Ec).
    destruct (Cli.rstrip s); rewrite contains_comma_cons, Ec; reflexivity.
  - simpl in H. specialize (IH H).
    destruct (Cli.rstrip s) as [| c' r]; [discriminate IH |].
    rewrite contains_comma_cons, IH. apply orb_true_r.
Qed.

Lemma lstrip_comma s :
  Text.contains "," s = true -> Text.contains "," (Cli.lstrip s) = true.
Proof.
  induction s as [| c s IH]; [intros H; exact H |].
  intros H. cbn [Cli.lstrip].
  destruct (Cli.is_c_space c) eqn:Es; [| exact H].
  apply IH. rewrite contains_comma_cons in H.
  destruct (Ascii.eqb c ",") eqn:Ec; [| exact H].
  rewrite (comma_not_space c Ec) in Es. discriminate Es.
Qed.

Lemma parse_digits_comma s : forall b acc digits,
  Text.contains "," s = true -> Cli.parse_digits b acc digits s = None.
Proof.
  induction s as [| c s IH]; intros b acc digits H; [discriminate H |].
  rewrite contains_comma_cons in H. cbn [Cli.parse_digits].
  destruct (Ascii.eqb c ",") eqn:Ec.
  - rewrite (comma_not_digit c Ec).
    apply Ascii.eqb_eq in Ec. subst c. reflexivity.
  - simpl in H.
    destruct (Cli.is_digit c); [apply IH, H |].
    destruct (Ascii.eqb c "_" && b); [apply IH, H | reflexivity].
Qed.

Lemma parse_number_comma lib s :
  Text.contains "," s = true -> Cli.parse_number lib s = None.
Proof.
  intros H. unfold Cli.parse_number. rewrite parse_digits_comma by exact H. reflexivity.
Qed.

(** [int] rejects every text that holds a comma. *)
Lemma py_int_comma lib s : Text.contains "," s = true -> Cli.py_int lib s = None.
Proof.
  intros H. apply rstrip_comma, lstrip_comma in H.
  unfold Cli.py_int. destruct (Cli.lstrip (Cli.rstrip s)) as [| c t]; [reflexivity |].
  pose proof H as H'. rewrite contains_comma_cons in H'.
  destruct (Ascii.eqb c "-") eqn:Em.
  - apply Ascii.eqb_eq in Em. subst c. simpl in H'.
    rewrite parse_number_comma by exact H'. reflexivity.
  - destruct (Ascii.eqb c "+") eqn:Ep.
    + apply Ascii.eqb_eq in Ep. subst c. simpl in H'.
      apply parse_number_comma, H'.
    + apply parse_number_comma, H.
Qed.

Example py_int_forms :
  Cli.py_int sample_library " -1_0 " = Some (-10) /\
  Cli.py_int sample_library "+007" = Some 7 /\
  Cli.py_int sample_library "1__0" = None /\
  Cli.py_int sample_library "_1" = None /\
  Cli.py_int sample_library "" = None /\
  Cli.py_int sample_library (String (ascii_of_nat 31) "5") = None /\
  Cli.py_int sample_library (String "5" (String (ascii_of_nat 31) "")) = None.
Proof. vm_compute. repeat split; reflexivity. Qed.

(** C10, as stated, fails: [--species 0] is accepted by the parser and does
    not reach [split]: 0 is falsy, the bulk branch runs and returns. *)
Lemma species_zero_runs_bulk_mode :
  let argv := {| Cli.argv_species := Some (Cli.Separate "0");
                 Cli.argv_num_images := None |} in
  let r := Cli.main no_species sample_library 0 argv (initial_state ∅ ∅) in
  Cli.takes_argument sample_library "0" = true /\
  Cli.py_int sample_library "0" = Some 0 /\
  fst r = Ok tt /\
  fst r <> Raise AttributeError /\
  trace (snd r) =
    [EvCountsRequest 1; EvPrint (MsgTotalSpecies 0); EvPrint (MsgFetched 0)].
Proof. vm_compute. repeat split; try reflexivity; discriminate. Qed.

(** C10, amended. Single-species mode never reaches name resolution,
    whatever [--species] is given, attached or as the next token, and
    whatever the library's parser makes of tokens: a text that holds a
    comma is never accepted as an integer, and what is not accepted makes
    the parser exit with status 2; an accepted integer other than 0 makes
    [split] raise [AttributeError]; in both cases nothing else has
    happened.  The accepted integer 0 is falsy and selects bulk mode. *)
Theorem single_species_mode_unusable env lib fuel st given argv_ni :
  let argv := {| Cli.argv_species := Some given; Cli.argv_num_images := argv_ni |} in
  (Text.contains "," (text_of given) = true -> accepted lib given = None) /\
  (accepted lib given = None ->
   Cli.main env lib fuel argv st = (Raise (SystemExit 2), st)) /\
  (forall n nb_img,
     accepted lib given = Some n -> n <> 0 -> num_images_of lib argv_ni = Some nb_img ->
     Cli.main env lib fuel argv st = (Raise AttributeError, st)) /\
  (forall nb_img,
     accepted lib given = Some 0 -> num_images_of lib argv_ni = Some nb_img ->
     Cli.main env lib fuel argv st =
       process_indian_oceanic_fish_species env fuel nb_img st).
Proof.
  intros argv. subst argv.
  assert (Hopt : forall g default,
            Cli.int_option lib (Some g) default =
            match accepted lib g with
            | Some n => ret (Cli.PyInt n)
            | None => raise (SystemExit 2)
            end).
  { intros g default. unfold Cli.int_option, Cli.int_type, accepted.
    destruct g as [text | text]; [reflexivity |].
    destruct (Cli.takes_argument lib text); reflexivity. }
  assert (Hni : forall nb_img, num_images_of lib argv_ni = Some nb_img ->
            Cli.int_option lib argv_ni (Cli.PyInt 100) = ret (Cli.PyInt nb_img)).
  { intros nb_img H. destruct argv_ni as [g |]; cbn [num_images_of] in H.
    - rewrite Hopt, H. reflexivity.
    - injection H as <-. reflexivity. }
  unfold Cli.main, Cli.parse_args. cbn [Cli.argv_species Cli.argv_num_images].
  rewrite Hopt.
  split; [| split; [| split]].
  - intros H. unfold accepted.
    destruct given as [text | text]; cbn [text_of] in H.
    + apply py_int_comma, H.
    + destruct (Cli.takes_argument lib text); [apply py_int_comma, H | reflexivity].
  - intros H. rewrite H. reflexivity.
  - intros n nb_img Hn Hnz Hnb. rewrite Hn, (Hni nb_img Hnb).
    apply Z.eqb_neq in Hnz.
    unfold bind, ret. simpl. rewrite Hnz. reflexivity.
  - intros nb_img Hn Hnb. rewrite Hn, (Hni nb_img Hnb). reflexivity.
Qed.

Lemma single_species_mode_unusable_witness :
  let st := initial_state ∅ ∅ in
  Cli.main offline sample_library 0
    {| Cli.argv_species := Some (Cli.Separate "Blue Tang,Clownfish");
       Cli.argv_num_images := None |} st
    = (Raise (SystemExit 2), st) /\
  Cli.main offline sample_library 0
    {| Cli.argv_species := Some (Cli.Attached "-4_7");
       Cli.argv_num_images := Some (Cli.Separate "5") |} st
    = (Raise AttributeError, st) /\
  Cli.main no_species sample_library 0
    {| Cli.argv_species := Some (Cli.Separate "0"); Cli.argv_num_images := None |} st
    = process_indian_oceanic_fish_species no_species 0 100 st.
Proof.
  intros st. split; [| split].
  - destruct (single_species_mode_unusable offline sample_library 0 st
                (Cli.Separate "Blue Tang,Clownfish") None)
      as (Hcomma & Hreject & _).
    apply Hreject, Hcomma. reflexivity.
  - destruct (single_species_mode_unusable offline sample_library 0 st
                (Cli.Attached "-4_7") (Some (Cli.Separate "5")))
      as (_ & _ & Hsplit & _).
    apply (Hsplit (-47) 5); [reflexivity | discriminate | reflexivity].
  - destruct (single_species_mode_unusable no_species sample_library 0 st
                (Cli.Separate "0") None)
      as (_ & _ & _ & Hbulk).
    apply (Hbulk 100); reflexivity.
Defined.

(** ** Further properties: folder keys and folders *)

Lemma key_char_split c :
  key_char c = true -> Text.is_space c = false /\ Text.is_upper c = false.
Proof.
  unfold key_char. intros H. apply andb_true_iff in H as [H1 H2].
  split; apply negb_true_iff; assumption.
Qed.

Lemma sub_spaces_key s : forall b,
  string_forall key_char s = true -> Text.sub_spaces b s = s.
Proof.
  induction s as [| c s IH]; intros b H; simpl; [reflexivity |].
  simpl in H. apply andb_true_iff in H as [Hc Hs].
  apply key_char_split in Hc as [Hsp _]. rewrite Hsp.
  f_equal. apply IH, Hs.
Qed.

Lemma sub_camel_key s :
  string_forall key_char s = true -> Text.sub_camel s = s.
Proof.
  enough (H : (string_forall key_char s = true -> Text.sub_camel s = s) /\
              (forall c, string_forall key_char (String c s) = true ->
                         Text.sub_camel (String c s) = String c s))
    by apply H.
  induction s as [| c2 s [IH1 IH2]].
  - split; [reflexivity |]. intros c _. reflexivity.
  - split; [apply IH2 |].
    intros c1 H. cbn [Text.sub_camel].
    cbn [string_forall] in H.
    apply andb_true_iff in H as [_ H].
    pose proof H as H'. apply andb_true_iff in H' as [H2 _].
    apply key_char_split in H2 as [_ Hup]. rewrite Hup, andb_false_r.
    f_equal. apply IH2. cbn [string_forall]. exact H.
Qed.

Lemma lower_key_id s : string_forall key_char s = true -> Text.lower s = s.
Proof.
  induction s as [| c s IH]; simpl; [reflexivity |].
  intros H. apply andb_true_iff in H as [Hc Hs].
  apply key_char_split in Hc as [_ Hup].
  unfold Text.lower_char. rewrite Hup. f_equal. apply IH, Hs.
Qed.

(** A name that is already a key (no whitespace, no capital letter) is its
    own key. *)
Lemma to_snake_case_fixed s :
  string_forall key_char s = true -> to_snake_case s = s.
Proof.
  intros H. unfold to_snake_case.
  rewrite (sub_spaces_key s false H), (sub_camel_key s H). apply lower_key_id, H.
Qed.

(** X1. [to_snake_case] is idempotent: deriving the key of a key gives the
    same key. *)
Theorem to_snake_case_idempotent name :
  to_snake_case (to_snake_case name) = to_snake_case name.
Proof.
  apply to_snake_case_fixed. unfold to_snake_case.
  apply lower_key, sub_camel_not_space, sub_spaces_not_space.
Qed.



(** ** Further properties: the rate limiter *)

Lemma run_calls_snoc env cs c st :
  run_calls env (cs ++ [c]) st = run_call env c (run_calls env cs st).
Proof. unfold run_calls. rewrite fold_left_app. reflexivity. Qed.

(** X3. After [k] calls of [respect_rate_limit] in a fresh process the
    counter is [k mod 61] and the time slept is 60 seconds per 61 calls:
    every 61st call waits and is not counted. *)
Theorem respect_rate_limit_period env c d (k : nat) :
  let st := run_calls env (replicate k CallRespectRateLimit) (initial_state c d) in
  request_count st = Z.of_nat k mod 61 /\
  clock st = 60 * (Z.of_nat k / 61).
Proof.
  induction k as [| k IH]; [split; reflexivity |].
  cbv zeta in *. rewrite replicate_S_end, run_calls_snoc.
  destruct IH as [Hr Hc].
  set (st := run_calls env (replicate k CallRespectRateLimit) (initial_state c d)) in *.
  cbn [run_call]. rewrite respect_rate_limit_run. cbn [snd request_count clock].
  pose proof (Z.mod_pos_bound (Z.of_nat k) 61 ltac:(lia)) as Hb.
  pose proof (Z.div_mod (Z.of_nat k) 61 ltac:(lia)) as Hdm.
  rewrite Nat2Z.inj_succ. unfold Z.succ.
  destruct (request_count st >=? 60) eqn:E; rewrite Z.geb_leb in E.
  - apply Z.leb_le in E.
    split.
    + apply (Z.mod_unique _ _ (Z.of_nat k / 61 + 1)); lia.
    + rewrite Hc.
      replace ((Z.of_nat k + 1) / 61) with (Z.of_nat k / 61 + 1)
        by (apply (Z.div_unique _ _ _ 0); lia).
      lia.
  - apply Z.leb_gt in E.
    split.
    + apply (Z.mod_unique _ _ (Z.of_nat k / 61)); lia.
    + rewrite Hc.
      replace ((Z.of_nat k + 1) / 61) with (Z.of_nat k / 61)
        by (apply (Z.div_unique _ _ _ (request_count st + 1)); lia).
      reflexivity.
Qed.

(** ** Further properties: the photo downloader *)

(** Either nothing is written, or the payload was valid, the folder exists
    and exactly one file of it is created or replaced. *)
Lemma download_cases env url folder idx st :
  let st' := snd (download_and_process_photo env url folder idx st) in
  fs st' = fs st \/
  exists resp ctype img d stored,
    http_get env url (net_calls st) = inr resp /\
    valid_photo resp ctype img /\
    fs st !! folder = Some d /\
    fs st' = <[folder := <[photo_name idx (img_format img) := Saved stored]> d]> (fs st).
Proof.
  intros st'. subst st'.
  unfold download_and_process_photo, try_except.
  unfold header_content_type, image_open, image_save, bind, get, ret, raise,
    print, emit, modify.
  rewrite request_run.
  destruct (http_get env url (net_calls st)) as [e | resp] eqn:Hget.
  { destruct (is_exception e); left; reflexivity. }
  destruct (status_code resp =? 200) eqn:Hs; [| left; reflexivity].
  destruct (content_type resp) as [ctype |] eqn:Hc; [| left; reflexivity].
  destruct (Text.contains "image" ctype) eqn:Hi; [| left; reflexivity].
  destruct (content resp) as [img |] eqn:Hb; [| left; reflexivity].
  cbn [negb].
  destruct ((img_format img =? "JPEG")%string || (img_format img =? "PNG")%string)
    eqn:Hf; [| left; reflexivity].
  cbn [negb].
  destruct ((img_width img =? 0) || (img_height img =? 0)) eqn:Hd; [left; reflexivity |].
  assert (Hv : valid_photo resp ctype img).
  { apply orb_false_iff in Hd as [Hw Hh].
    apply Z.eqb_neq in Hw, Hh. apply Z.eqb_eq in Hs.
    apply orb_true_iff in Hf.
    unfold valid_photo. repeat split; try assumption.
    destruct Hf as [Hf | Hf]; apply String.eqb_eq in Hf; [left | right]; exact Hf. }
  unfold convert_rgb, image_load, bind, ret, raise.
  destruct (negb (img_mode img =? "RGB")%string && (img_format img =? "JPEG")%string);
    destruct (img_loads img); cbn [fs set_net_calls set_trace img_loads];
    try (left; reflexivity);
    (destruct (fs st !! folder) as [d |] eqn:Hdir; [| left; reflexivity];
     right; eexists resp, ctype, img, d, _;
     split; [reflexivity |]; split; [exact Hv |]; split; reflexivity).
Qed.

(** X4. Whatever the server does, short of stopping the interpreter, the
    download of one photo returns normally: every failure is confined to
    that photo.  It sends exactly one request and leaves the counters and
    the cache alone. *)
Theorem download_and_process_photo_contained env url folder idx st :
  (forall e, http_get env url (net_calls st) = inl e -> is_exception e = true) ->
  let r := download_and_process_photo env url folder idx st in
  fst r = Ok tt /\
  net_calls (snd r) = S (net_calls st) /\
  request_count (snd r) = request_count st /\
  species_done (snd r) = species_done st /\
  cache (snd r) = cache st.
Proof.
  intros Hexn r. subst r.
  unfold download_and_process_photo, try_except.
  unfold header_content_type, image_open, image_save, bind, get, ret, raise,
    print, emit, modify.
  rewrite request_run.
  destruct (http_get env url (net_calls st)) as [e | resp] eqn:Hget.
  { rewrite (Hexn e eq_refl). repeat split; reflexivity. }
  destruct (status_code resp =? 200); [| repeat split; reflexivity].
  destruct (content_type resp) as [ctype |]; [| repeat split; reflexivity].
  destruct (Text.contains "image" ctype); [| repeat split; reflexivity].
  destruct (content resp) as [img |]; [| repeat split; reflexivity].
  cbn [negb].
  destruct ((img_format img =? "JPEG")%string || (img_format img =? "PNG")%string);
    [| repeat split; reflexivity].
  cbn [negb].
  destruct ((img_width img =? 0) || (img_height img =? 0)); [repeat split; reflexivity |].
  unfold convert_rgb, image_load, bind, ret, raise.
  destruct (negb (img_mode img =? "RGB")%string && (img_format img =? "JPEG")%string);
    destruct (img_loads img); cbn [fs set_net_calls set_trace img_loads];
    try (repeat split; reflexivity);
    destruct (fs st !! folder); repeat split; reflexivity.
Qed.

Lemma download_and_process_photo_contained_witness :
  let r := download_and_process_photo offline "https://img/1/medium.jpg"
             "fish_photos/blue_tang" 0 (initial_state ∅ ∅) in
  fst r = Ok tt /\ net_calls (snd r) = 1%nat.
Proof.
  intros r.
  destruct (download_and_process_photo_contained offline "https://img/1/medium.jpg"
              "fish_photos/blue_tang" 0 (initial_state ∅ ∅)) as (H1 & H2 & _).
  - intros e H. injection H as <-. reflexivity.
  - split; [exact H1 | exact H2].
Defined.

(** X5. A download changes the disk only if the answer had status 200, a
    content type mentioning [image], a body that decodes to a JPEG or PNG
    of non-zero width and height, and the species folder exists. *)
Theorem download_writes_only_valid_images env url folder idx st :
  fs (snd (download_and_process_photo env url folder idx st)) <> fs st ->
  exists resp ctype img,
    http_get env url (net_calls st) = inr resp /\
    valid_photo resp ctype img /\
    is_Some (fs st !! folder).
Proof.
  intros Hchg.
  destruct (download_cases env url folder idx st)
    as [Hsame | (resp & ctype & img & d & stored & Hget & Hv & Hd & _)].
  - contradiction.
  - exists resp, ctype, img. rewrite Hd. eauto.
Qed.

Lemma download_writes_only_valid_images_witness :
  exists resp ctype img,
    http_get (photo_server cmyk_jpeg) "https://img/1/medium.jpg" O = inr resp /\
    valid_photo resp ctype img /\
    is_Some (fs empty_folder !! "fish_photos/blue_tang").
Proof.
  apply (download_writes_only_valid_images (photo_server cmyk_jpeg)
           "https://img/1/medium.jpg" "fish_photos/blue_tang" 3 empty_folder).
  intros H.
  apply (f_equal (fun m => file_at m "fish_photos/blue_tang" "photo_3.jpeg")) in H.
  vm_compute in H. discriminate H.
Defined.

(** X6. A download touches at most one file: any entry outside the species
    folder, and any entry of that folder not named [photo_<index>.jpeg] or
    [photo_<index>.png], is after the call what it was before. *)
Theorem download_touches_one_file env url folder idx st other name :
  other <> folder \/
    (name <> photo_name idx "JPEG" /\ name <> photo_name idx "PNG") ->
  file_at (fs (snd (download_and_process_photo env url folder idx st))) other name
    = file_at (fs st) other name.
Proof.
  intros Hne.
  destruct (download_cases env url folder idx st)
    as [Hsame | (resp & ctype & img & d & stored & _ & Hv & Hd & Hfs)].
  - rewrite Hsame. reflexivity.
  - rewrite Hfs. unfold file_at.
    destruct (decide (other = folder)) as [-> | Hof].
    + rewrite lookup_insert_eq, Hd.
      destruct Hne as [Hne | [Hj Hp]]; [congruence |].
      apply lookup_insert_ne.
      destruct Hv as (_ & _ & _ & _ & [Hf | Hf] & _); rewrite Hf; congruence.
    + rewrite lookup_insert_ne by congruence. reflexivity.
Qed.

Lemma download_touches_one_file_witness :
  let st := initial_state ∅ {[ "fish_photos/blue_tang" := thirty_photos ]} in
  file_at (fs (snd (download_and_process_photo (photo_server cmyk_jpeg)
                      "https://img/1/medium.jpg" "fish_photos/blue_tang" 3 st)))
    "fish_photos/blue_tang" "photo_4.jpeg"
  = file_at (fs st) "fish_photos/blue_tang" "photo_4.jpeg".
Proof.
  intros st.
  apply (download_touches_one_file (photo_server cmyk_jpeg) "https://img/1/medium.jpg"
           "fish_photos/blue_tang" 3 st "fish_photos/blue_tang" "photo_4.jpeg").
  right. split; vm_compute; discriminate.
Defined.

(** ** Further properties: photo references *)

(** X7. The photo references of a result are, in result order, the
    rewritten first photo of every observation that has a photo:
    observations without photos contribute nothing, further photos of an
    observation are ignored, and there are never more references than
    observations. *)
Theorem extract_photo_urls_first_photos obs :
  extract_photo_urls obs = List.map first_photo_medium (List.filter has_photo obs) /\
  (length (extract_photo_urls obs) <= length obs)%nat /\
  (forall obs', extract_photo_urls (obs ++ obs') =
                (extract_photo_urls obs ++ extract_photo_urls obs')%list).
Proof.
  split; [| split].
  - induction obs as [| [photos] obs IH]; [reflexivity |].
    destruct photos as [| u photos]; cbn; rewrite IH; reflexivity.
  - induction obs as [| [photos] obs IH]; [reflexivity |].
    destruct photos as [| u photos]; cbn [extract_photo_urls observation_photos length];
      lia.
  - intros obs'. induction obs as [| [photos] obs IH]; [reflexivity |].
    destruct photos as [| u photos]; cbn; rewrite IH; reflexivity.
Qed.

Lemma prefix_split old s :
  String.prefix old s = true -> s = old ++ Text.drop (String.length old) s.
Proof.
  revert s. induction old as [| a old IH]; intros s H; [reflexivity |].
  destruct s as [| b s]; [discriminate H |].
  cbn [String.prefix] in H. destruct (ascii_dec a b) as [-> | _]; [| discriminate H].
  change (String b s = String b (old ++ Text.drop (String.length old) s)).
  f_equal. apply IH, H.
Qed.

Lemma prefix_app old rest : String.prefix old (old ++ rest) = true.
Proof.
  induction old as [| a old IH]; [destruct rest; reflexivity |].
  change (String.prefix (String a old) (String a (old ++ rest)) = true).
  cbn [String.prefix].
  destruct (ascii_dec a a); [exact IH | contradiction].
Qed.

(** X8. The URL rewrite replaces one occurrence, the leftmost one: a text
    without the old token is returned as it is; otherwise the text splits
    as [pre ++ old ++ post] with the result [pre ++ new ++ post], and no
    occurrence of the old token starts before the end of [pre]. *)
Theorem replace_first_leftmost old new s :
  (Text.contains old s = false -> Text.replace_first old new s = s) /\
  (Text.contains old s = true ->
   exists pre post,
     s = pre ++ old ++ post /\
     Text.replace_first old new s = pre ++ new ++ post /\
     forall pre' post',
       s = pre' ++ old ++ post' -> (String.length pre <= String.length pre')%nat).
Proof.
  induction s as [| c s [IHno IHyes]].
  - split.
    + intros H. cbn [Text.contains] in H. rewrite orb_false_r in H.
      cbn [Text.replace_first]. rewrite H. reflexivity.
    + intros H. cbn [Text.contains] in H. rewrite orb_false_r in H.
      exists "", (Text.drop (String.length old) "").
      split; [apply (prefix_split old ""), H |].
      split; [cbn [Text.replace_first]; rewrite H; reflexivity |].
      intros pre' post' _. cbn. lia.
  - split.
    + intros H. cbn [Text.contains] in H. apply orb_false_iff in H as [Hp Hc].
      cbn [Text.replace_first]. rewrite Hp. f_equal. apply IHno, Hc.
    + intros H. cbn [Text.contains] in H.
      destruct (String.prefix old (String c s)) eqn:Hp.
      * exists "", (Text.drop (String.length old) (String c s)).
        split; [apply (prefix_split old (String c s)), Hp |].
        split; [cbn [Text.replace_first]; rewrite Hp; reflexivity |].
        intros pre' post' _. cbn. lia.
      * cbn [orb] in H. destruct (IHyes H) as (pre & post & Hs & Hr & Hmin).
        exists (String c pre), post.
        split; [change (String c s = String c (pre ++ old ++ post)); f_equal; exact Hs |].
        split.
        { cbn [Text.replace_first]. rewrite Hp.
          change (String c (Text.replace_first old new s) = String c (pre ++ new ++ post)).
          f_equal. exact Hr. }
        intros pre' post' Hs'.
        destruct pre' as [| c' pre'].
        -- change (String c s = old ++ post') in Hs'.
           rewrite Hs', prefix_app in Hp. discriminate Hp.
        -- change (String c s = String c' (pre' ++ old ++ post')) in Hs'.
           injection Hs' as _ Hs'.
           specialize (Hmin pre' post' Hs'). cbn. lia.
Qed.

Lemma replace_first_leftmost_witness :
  Text.replace_first "square" "medium" "https://img/9/large.jpg" = "https://img/9/large.jpg" /\
  exists pre post,
    "https://img/square/9/square.jpg" = pre ++ "square" ++ post /\
    Text.replace_first "square" "medium" "https://img/square/9/square.jpg"
      = pre ++ "medium" ++ post.
Proof.
  split.
  - apply (replace_first_leftmost "square" "medium" "https://img/9/large.jpg").
    reflexivity.
  - destruct (proj2 (replace_first_leftmost "square" "medium"
                       "https://img/square/9/square.jpg") eq_refl)
      as (pre & post & H1 & H2 & _).
    exists pre, post. split; assumption.
Defined.

(** ** Further properties: the photo batch *)


Lemma executor_map_ok {A} (f : A -> M unit) tasks : forall st,
  fst (executor_map f tasks st) = Ok tt.
Proof.
  induction tasks as [| t tasks IH]; intros st; [reflexivity | apply IH].
Qed.



(** ** Further properties: the species processor *)


(** A species that is not satisfied goes through the creation of its folder
    and then through the rest of the function. *)
Lemma process_specy_unsatisfied env specy nb_img st :
  (forall d, fs st !! species_folder_of specy = Some d -> count_regular d < 30) ->
  process_specy env specy nb_img st =
  process_specy_body env specy nb_img (species_folder_of specy)
    (ensure_folder (species_folder_of specy) st).
Proof.
  intros Hlow.
  unfold process_specy. cbv zeta.
  fold (species_folder_of specy). fold (obs_query specy nb_img).
  unfold bind at 1.
  destruct (fs st !! species_folder_of specy) as [d |] eqn:Hfs.
  - rewrite (path_exists_some _ d) by exact Hfs.
    unfold bind at 1. unfold bind at 1.
    rewrite (count_files_some _ d) by exact Hfs.
    unfold ret at 1.
    replace (count_regular d >=? 30) with false
      by (symmetry; rewrite Z.geb_leb; apply Z.leb_gt; apply Hlow; reflexivity).
    unfold bind at 1. rewrite create_species_folder_run.
    fold (species_folder_of specy). fold (ensure_folder (species_folder_of specy) st).
    reflexivity.
  - rewrite path_exists_none by exact Hfs.
    unfold bind at 1. unfold ret at 1.
    unfold bind at 1. rewrite create_species_folder_run.
    fold (species_folder_of specy). fold (ensure_folder (species_folder_of specy) st).
    reflexivity.
Qed.

Lemma cached_get_observations_hit env q key st v :
  cache st !! key = Some v ->
  cached_get_observations env q key st =
    (Ok v, set_trace (trace st ++ [EvCacheLookup key; EvPrint (MsgCacheUsed key)]) st).
Proof.
  intros H.
  unfold cached_get_observations, bind, get, print, emit, modify, ret. simpl.
  rewrite H. unfold set_trace. simpl. rewrite <- app_assoc. reflexivity.
Qed.

(** X10. A cached response that lacks [total_results] or [results] poisons
    its species: as long as the species is not satisfied, every call ends
    with [KeyError] straight from the cache, without any request, without a
    pass through the rate limiter, and without counting the species as
    done. *)
Theorem process_specy_poisoned_cache env specy nb_img st obs :
  (forall d, fs st !! species_folder_of specy = Some d -> count_regular d < 30) ->
  cache st !! species_folder_of specy = Some obs ->
  obs_total_results obs = None \/ obs_results obs = None ->
  let r := process_specy env specy nb_img st in
  fst r = Raise KeyError /\
  net_calls (snd r) = net_calls st /\
  request_count (snd r) = request_count st /\
  species_done (snd r) = species_done st /\
  cache (snd r) = cache st.
Proof.
  intros Hlow Hhit Hbad r. subst r.
  rewrite (process_specy_unsatisfied env specy nb_img st Hlow).
  assert (Hc : cache (ensure_folder (species_folder_of specy) st)
                 !! species_folder_of specy = Some obs).
  { unfold ensure_folder. destruct (fs st !! species_folder_of specy); exact Hhit. }
  assert (Hframe : forall t,
            let s := set_trace t (ensure_folder (species_folder_of specy) st) in
            net_calls s = net_calls st /\ request_count s = request_count st /\
            species_done s = species_done st /\ cache s = cache st).
  { intros t. unfold ensure_folder.
    destruct (fs st !! species_folder_of specy); repeat split; reflexivity. }
  assert (Hrun :
    process_specy_body env specy nb_img (species_folder_of specy)
      (ensure_folder (species_folder_of specy) st) =
    (Raise KeyError,
     set_trace (trace (ensure_folder (species_folder_of specy) st) ++
                [EvCacheLookup (species_folder_of specy);
                 EvPrint (MsgCacheUsed (species_folder_of specy))])
       (ensure_folder (species_folder_of specy) st))).
  { unfold process_specy_body. unfold bind at 1.
    rewrite (cached_get_observations_hit _ _ _ _ obs Hc).
    unfold bind at 1. unfold obs_get_total_results at 1.
    destruct (obs_total_results obs) as [t |] eqn:Ht.
    - destruct Hbad as [Hbad | Hbad]; [discriminate Hbad |].
      unfold ret at 1. unfold bind at 1. unfold obs_get_results at 1.
      rewrite Hbad. reflexivity.
    - reflexivity. }
  rewrite Hrun. cbn [fst snd]. split; [reflexivity | apply Hframe].
Qed.

Lemma process_specy_poisoned_cache_witness :
  let error_body := {| obs_total_results := None; obs_results := None |} in
  let st := initial_state {[ "fish_photos/blue_tang" := error_body ]} ∅ in
  let r := process_specy fifty_available blue_tang 100 st in
  fst r = Raise KeyError /\ net_calls (snd r) = O.
Proof.
  intros error_body st r.
  destruct (process_specy_poisoned_cache fifty_available blue_tang 100 st error_body)
    as (H1 & H2 & _).
  - intros d H. vm_compute in H. discriminate H.
  - vm_compute. reflexivity.
  - left. reflexivity.
  - split; [exact H1 | exact H2].
Defined.

Lemma raises_bind {A B} (m : M A) (k : A -> M B) :
  preserves globals_inv m -> (forall a, raises_always (k a)) ->
  raises_always (bind m k).
Proof.
  intros Hm Hk st H. unfold bind. specialize (Hm st H).
  destruct (m st) as [[a | e] st']; simpl in *.
  - apply Hk, Hm.
  - exists e. reflexivity.
Qed.

Lemma report_stats_raises : raises_always report_stats.
Proof.
  intros st [Ht _]. exists ZeroDivisionError.
  unfold report_stats, bind, get, print, emit, modify. simpl.
  rewrite Ht. reflexivity.
Qed.

Lemma photo_batch_inv env folder urls : preserves globals_inv (photo_batch env folder urls).
Proof. unfold photo_batch. pres. Qed.

Lemma process_specy_body_raises env specy nb_img folder :
  raises_always (process_specy_body env specy nb_img folder).
Proof.
  unfold process_specy_body.
  repeat lazymatch goal with
    | |- raises_always (bind _ _) =>
        apply raises_bind; [pres; apply photo_batch_inv | intros ?]
    end.
  apply report_stats_raises.
Qed.

Lemma ensure_folder_inv folder st : globals_inv st -> globals_inv (ensure_folder folder st).
Proof.
  unfold ensure_folder. destruct (fs st !! folder); intros H; exact H.
Qed.

(** In a state whose globals are those of a fresh process, a call of
    [process_specy] that returns normally skipped its species. *)
Lemma process_specy_ok_skipped env specy nb_img st :
  globals_inv st ->
  fst (process_specy env specy nb_img st) = Ok tt ->
  exists d, fs st !! species_folder_of specy = Some d /\ 30 <= count_regular d.
Proof.
  intros Hinv Hok.
  destruct (fs st !! species_folder_of specy) as [d |] eqn:Hfs.
  - destruct (Z_lt_le_dec (count_regular d) 30) as [Hlt | Hge]; [| eauto].
    exfalso.
    rewrite process_specy_unsatisfied in Hok
      by (intros d' Hd'; rewrite Hfs in Hd'; injection Hd' as <-; exact Hlt).
    destruct (process_specy_body_raises env specy nb_img (species_folder_of specy)
                _ (ensure_folder_inv (species_folder_of specy) st Hinv)) as [e He].
    rewrite He in Hok. discriminate Hok.
  - exfalso.
    rewrite process_specy_unsatisfied in Hok
      by (intros d' Hd'; rewrite Hfs in Hd'; discriminate Hd').
    destruct (process_specy_body_raises env specy nb_img (species_folder_of specy)
                _ (ensure_folder_inv (species_folder_of specy) st Hinv)) as [e He].
    rewrite He in Hok. discriminate Hok.
Qed.

(** X11. In any run of a fresh process, a call of [process_specy] returns
    normally only when it skips a satisfied species: whenever the species
    goes through fetching, the call ends with an exception (at the latest
    the division by zero of [report_stats]). *)
Theorem process_specy_returns_only_when_skipped env cs c d specy nb_img :
  let st := run_calls env cs (initial_state c d) in
  fst (process_specy env specy nb_img st) = Ok tt ->
  exists dir, fs st !! species_folder_of specy = Some dir /\ 30 <= count_regular dir.
Proof.
  intros st. apply process_specy_ok_skipped.
  apply run_calls_inv, initial_state_inv.
Qed.

Lemma process_specy_returns_only_when_skipped_witness :
  exists dir,
    fs (run_calls offline []
          (initial_state ∅ {[ "fish_photos/blue_tang" := thirty_photos ]}))
      !! species_folder_of blue_tang = Some dir /\
    30 <= count_regular dir.
Proof.
  apply (process_specy_returns_only_when_skipped offline []
           ∅ {[ "fish_photos/blue_tang" := thirty_photos ]} blue_tang 100).
  vm_compute. reflexivity.
Defined.









(** ** Further properties: bulk mode *)



(** X14. The page loop does not end when the service reports more species
    than it delivers: if every page comes back empty while the total is not
    reached, then for every bound on the iterations the loop is still
    running at the bound, having sent one request per iteration. *)
Theorem fetch_pages_never_ends env fuel : forall page total all_species st,
  (forall p n, exists obs, api_species_counts env p n = inr obs /\ sp_results obs = []) ->
  Z.of_nat (length all_species) < total ->
  let r := fetch_pages env fuel page total all_species st in
  fst r = Raise OutOfFuel /\ net_calls (snd r) = (net_calls st + fuel)%nat.
Proof.
  induction fuel as [| fuel IH]; intros page total all_species st Hempty Hlt;
    apply Z.ltb_lt in Hlt as Hb; cbv zeta.
  - cbn [fetch_pages]. rewrite Hb. unfold raise. cbn [fst snd]. split; [reflexivity | lia].
  - destruct (Hempty (page + 1) (net_calls st)) as (obs & Hobs & Hnil).
    assert (Hstep :
      fetch_pages env (S fuel) page total all_species st =
      fetch_pages env fuel (page + 1) total all_species
        (set_net_calls (S (net_calls st))
           (set_trace (trace st ++ [EvCountsRequest (page + 1)]) st))).
    { cbn [fetch_pages]. rewrite Hb.
      unfold bind at 1, get_observation_species_counts.
      rewrite request_run, Hobs, Hnil, app_nil_r. reflexivity. }
    rewrite Hstep.
    destruct (IH (page + 1) total all_species
                (set_net_calls (S (net_calls st))
                   (set_trace (trace st ++ [EvCountsRequest (page + 1)]) st))
                Hempty Hlt) as [H1 H2].
    split; [exact H1 |]. rewrite H2. cbn [net_calls set_net_calls]. lia.
Qed.

Lemma fetch_pages_never_ends_witness :
  let r := fetch_pages (empty_pages 3) 25 1 3 [] (initial_state ∅ ∅) in
  fst r = Raise OutOfFuel /\ net_calls (snd r) = 25%nat.
Proof.
  apply (fetch_pages_never_ends (empty_pages 3) 25 1 3 [] (initial_state ∅ ∅)).
  - intros p n. eexists. split; reflexivity.
  - reflexivity.
Defined.

Lemma fetch_pages_failure env fuel : forall page total all_species st e,
  fst (fetch_pages env fuel page total all_species st) = Raise e ->
  enumeration_failure env e.
Proof.
  induction fuel as [| fuel IH]; intros page total all_species st e H;
    cbn [fetch_pages] in H;
    destruct (Z.of_nat (length all_species) <? total).
  - injection H as <-. left. reflexivity.
  - discriminate H.
  - unfold bind at 1, get_observation_species_counts in H.
    rewrite request_run in H.
    destruct (api_species_counts env (page + 1) (net_calls st)) as [e' | obs] eqn:Ho.
    + injection H as <-. right. eauto.
    + apply IH in H. exact H.
  - discriminate H.
Qed.

(** X15. Bulk mode never fails because of a species or a photo: it returns
    normally unless the enumeration of the species itself failed, that is,
    unless the species-count service raised or the page loop did not end. *)
Theorem bulk_mode_failures env fuel nb_img st :
  let r := process_indian_oceanic_fish_species env fuel nb_img st in
  fst r = Ok tt \/ exists e, fst r = Raise e /\ enumeration_failure env e.
Proof.
  intros r. remember r as r' eqn:Hr. subst r.
  unfold process_indian_oceanic_fish_species in Hr. cbv zeta in Hr.
  unfold bind at 1, get_observation_species_counts in Hr. rewrite request_run in Hr.
  destruct (api_species_counts env 1 (net_calls st)) as [e | obs] eqn:Ho.
  { subst r'. right. exists e. split; [reflexivity | right; eauto]. }
  unfold bind at 1, print at 1, emit at 1, modify at 1 in Hr.
  unfold bind at 1 in Hr.
  match type of Hr with
  | context [fetch_pages env fuel 1 ?t ?a ?s] =>
      destruct (fetch_pages env fuel 1 t a s) as [[l | e] st'] eqn:Hf
  end.
  - left. subst r'. unfold bind, print, emit, modify. apply executor_map_ok.
  - right. exists e. subst r'. split; [reflexivity |].
    eapply fetch_pages_failure. rewrite Hf. reflexivity.
Qed.

(** ** Further properties: what no call of the script undoes *)

(** A property of the state that survives every elementary update the
    script makes survives every function of the script. *)
Section Frame.
Context (P : State -> Prop).
Context (P_trace : forall st t, P st -> P (set_trace t st)).
Context (P_clock : forall st t, P st -> P (set_clock t st)).
Context (P_count : forall st n, P st -> P (set_request_count n st)).
Context (P_net : forall st, P st -> P (set_net_calls (S (net_calls st)) st)).
Context (P_done : forall st, P st -> P (set_species_done (species_done st + 1) st)).
Context (P_cache : forall st k v, P st -> P (set_cache (<[k := v]> (cache st)) st)).
Context (P_mkdir : forall st folder,
           fs st !! folder = None -> P st -> P (set_fs (<[folder := ∅]> (fs st)) st)).
Context (P_save : forall st folder d name img,
           fs st !! folder = Some d -> P st ->
           P (set_fs (<[folder := <[name := Saved img]> d]> (fs st)) st)).

Local Ltac frame_side :=
  intros; cbv beta;
  repeat lazymatch goal with
    | H : P ?s |- P ?s => exact H
    | |- P (set_trace _ _) => apply P_trace
    | |- P (set_clock _ _) => apply P_clock
    | |- P (set_request_count _ _) => apply P_count
    | |- P (set_net_calls _ _) => apply P_net
    | |- P (set_species_done _ _) => apply P_done
    | |- P (set_cache _ _) => apply P_cache
    end.

Local Ltac frame_step :=
  lazymatch goal with
  | |- preserves _ (ret _) => apply preserves_ret
  | |- preserves _ (raise _) => apply preserves_raise
  | |- preserves _ get => apply preserves_get
  | |- preserves _ (modify _) => apply preserves_modify; frame_side
  | |- preserves _ (bind _ _) => apply preserves_bind; [| intros ?]
  | |- preserves _ (try_except _ _ _) => apply preserves_try; [| intros ?]
  | |- preserves _ (executor_map _ _) => apply preserves_executor_map; intros ?
  | |- preserves _ (Cli.for_each _ _) => apply preserves_for_each; intros ?
  | |- preserves _ (if ?b then _ else _) => destruct b
  | |- preserves _ (match ?x with _ => _ end) => destruct x
  | |- preserves _ (let _ := _ in _) => cbv zeta
  end.

Local Ltac frame := repeat frame_step; eauto.

Lemma emit_frame e : preserves P (emit e).
Proof. unfold emit. frame. Qed.

Lemma sleep_frame n : preserves P (sleep n).
Proof. unfold sleep. pose proof emit_frame. frame. Qed.

Lemma with_lock_frame {A} (body : M A) : preserves P body -> preserves P (with_lock body).
Proof.
  intros Hb st H. unfold with_lock.
  assert (Hs : preserves P (lock_acquire ;;; body))
    by (apply preserves_bind; [apply emit_frame | intros _; exact Hb]).
  specialize (Hs st H).
  destruct ((lock_acquire ;;; body) st) as [r st']; simpl in *.
  apply emit_frame, Hs.
Qed.

Lemma request_frame {A} ev (oracle : nat -> Exn + A) : preserves P (request ev oracle).
Proof. unfold request. pose proof emit_frame. frame. Qed.

Lemma respect_rate_limit_frame : preserves P respect_rate_limit.
Proof.
  unfold respect_rate_limit, print. pose proof emit_frame. pose proof sleep_frame. frame.
Qed.

Lemma count_files_frame folder : preserves P (count_files folder).
Proof. unfold count_files, listdir. frame. Qed.

Lemma create_species_folder_frame root name : preserves P (create_species_folder root name).
Proof.
  intros st H. rewrite create_species_folder_run. cbn [snd].
  destruct (fs st !! Text.path_join root name) eqn:E; [exact H |].
  apply P_mkdir; assumption.
Qed.

Lemma image_save_frame img folder name : preserves P (image_save img folder name).
Proof.
  intros st H. unfold image_save, image_load, bind, get, ret, raise, emit, modify.
  destruct (img_loads img); [| exact H].
  destruct (fs st !! folder) as [d |] eqn:E; [| exact H].
  cbn [snd]. apply P_trace, P_save; assumption.
Qed.

Lemma download_and_process_photo_frame env url folder i :
  preserves P (download_and_process_photo env url folder i).
Proof.
  unfold download_and_process_photo, header_content_type, image_open, print,
    convert_rgb, image_load.
  pose proof emit_frame. pose proof image_save_frame.
  pose proof (@request_frame HttpResponse). frame.
Qed.

Lemma get_observations_frame env q : preserves P (get_observations env q).
Proof. unfold get_observations. pose proof (@request_frame ObsJson). frame. Qed.

Lemma search_specy_frame env query : preserves P (search_specy env query).
Proof. unfold search_specy. pose proof (@request_frame SpeciesJson). frame. Qed.

Lemma cached_get_observations_frame env q folder :
  preserves P (cached_get_observations env q folder).
Proof.
  unfold cached_get_observations, print, lock_acquire, lock_release.
  pose proof emit_frame. pose proof respect_rate_limit_frame.
  pose proof get_observations_frame. frame.
Qed.

Lemma report_stats_frame_inv : preserves P report_stats.
Proof. unfold report_stats, print. pose proof emit_frame. frame. Qed.

Lemma process_specy_frame env specy nb_img : preserves P (process_specy env specy nb_img).
Proof.
  unfold process_specy, path_exists, obs_get_total_results, obs_get_results,
    incr_species_done, print.
  pose proof emit_frame. pose proof count_files_frame.
  pose proof create_species_folder_frame. pose proof cached_get_observations_frame.
  pose proof download_and_process_photo_frame. pose proof report_stats_frame_inv.
  repeat frame_step; eauto; apply with_lock_frame; frame.
Qed.

Lemma fetch_pages_frame env fuel : forall page total all_species,
  preserves P (fetch_pages env fuel page total all_species).
Proof.
  pose proof (@request_frame SpeciesJson).
  induction fuel as [| fuel IH]; intros page total all_species; simpl.
  - frame.
  - unfold get_observation_species_counts.
    destruct (Z.of_nat (length all_species) <? total); frame.
Qed.

Lemma process_indian_oceanic_fish_species_frame env fuel nb_img :
  preserves P (process_indian_oceanic_fish_species env fuel nb_img).
Proof.
  unfold process_indian_oceanic_fish_species, get_observation_species_counts, print.
  pose proof emit_frame. pose proof (@request_frame SpeciesJson).
  pose proof fetch_pages_frame. pose proof process_specy_frame. frame.
Qed.

Lemma main_frame env lib fuel argv : preserves P (Cli.main env lib fuel argv).
Proof.
  unfold Cli.main, Cli.parse_args, Cli.int_option, Cli.int_type, Cli.py_split.
  pose proof search_specy_frame. pose proof process_specy_frame.
  pose proof process_indian_oceanic_fish_species_frame. frame.
Qed.

Lemma run_call_frame env c st : P st -> P (run_call env c st).
Proof.
  intros H. destruct c; simpl.
  - apply respect_rate_limit_frame, H.
  - apply create_species_folder_frame, H.
  - apply download_and_process_photo_frame, H.
  - apply get_observations_frame, H.
  - apply search_specy_frame, H.
  - apply cached_get_observations_frame, H.
  - apply process_specy_frame, H.
  - apply report_stats_frame_inv, H.
  - apply process_indian_oceanic_fish_species_frame, H.
  - apply main_frame, H.
Qed.

Lemma run_calls_frame env cs : forall st, P st -> P (run_calls env cs st).
Proof.
  unfold run_calls. induction cs as [| c cs IH]; intros st H; simpl.
  - exact H.
  - apply IH, run_call_frame, H.
Qed.

End Frame.

(** X16. Over any sequence of calls the species counter and the number of
    requests sent never decrease. *)
Theorem counters_never_decrease env cs st :
  species_done st <= species_done (run_calls env cs st) /\
  (net_calls st <= net_calls (run_calls env cs st))%nat.
Proof.
  split.
  - apply (run_calls_frame (fun s => species_done st <= species_done s));
      intros; simpl; lia.
  - apply (run_calls_frame (fun s => (net_calls st <= net_calls s)%nat));
      intros; simpl; lia.
Qed.

(** X17. No call of the script deletes anything from the disk: a folder
    that exists before a run exists after it, and so does every entry of
    it (a saved photo may have replaced the entry of the same name). *)
Theorem entries_never_deleted env cs st folder name :
  (is_Some (fs st !! folder) -> is_Some (fs (run_calls env cs st) !! folder)) /\
  (is_Some (file_at (fs st) folder name) ->
   is_Some (file_at (fs (run_calls env cs st)) folder name)).
Proof.
  split; intros H0.
  - apply (run_calls_frame (fun s => is_Some (fs s !! folder))); try (intros; assumption).
    + intros s f Hf H. simpl. destruct (decide (f = folder)) as [-> | Hne].
      * rewrite lookup_insert_eq. eauto.
      * rewrite lookup_insert_ne by exact Hne. exact H.
    + intros s f d n img Hf H. simpl. destruct (decide (f = folder)) as [-> | Hne].
      * rewrite lookup_insert_eq. eauto.
      * rewrite lookup_insert_ne by exact Hne. exact H.
  - apply (run_calls_frame (fun s => is_Some (file_at (fs s) folder name)));
      try (intros; assumption).
    + intros s f Hf H. simpl. unfold file_at in *.
      destruct (decide (f = folder)) as [-> | Hne].
      * rewrite Hf in H. destruct H as [? H]. discriminate H.
      * rewrite lookup_insert_ne by exact Hne. exact H.
    + intros s f d n img Hf H. simpl. unfold file_at in *.
      destruct (decide (f = folder)) as [-> | Hne].
      * rewrite lookup_insert_eq. rewrite Hf in H.
        destruct (decide (n = name)) as [-> | Hn].
        -- rewrite lookup_insert_eq. eauto.
        -- rewrite lookup_insert_ne by exact Hn. exact H.
      * rewrite lookup_insert_ne by exact Hne. exact H.
Qed.

Lemma entries_never_deleted_witness :
  let st := initial_state ∅ {[ "fish_photos/blue_tang" := ten_files ]} in
  let st' := run_calls fifty_available [CallProcessSpecy blue_tang 5] st in
  is_Some (fs st' !! "fish_photos/blue_tang") /\
  is_Some (file_at (fs st') "fish_photos/blue_tang" "old_3.jpg").
Proof.
  intros st st'.
  destruct (entries_never_deleted fifty_available [CallProcessSpecy blue_tang 5] st
              "fish_photos/blue_tang" "old_3.jpg") as [H1 H2].
  split.
  - apply H1. vm_compute. eauto.
  - apply H2. vm_compute. eauto.
Defined.

(** ** Further properties: the service wrappers, the cache, the entry point *)

(** X18. [get_observations] and [search_specy] send exactly one request
    and hand its outcome to the caller as it is: the decoded answer, or the
    very exception that was raised; their [except] clause changes nothing. *)
Theorem service_wrappers_reraise env st :
  (forall q,
     get_observations env q st =
       (match api_observations env q (net_calls st) with
        | inl e => Raise e
        | inr answer => Ok answer
        end,
        set_net_calls (S (net_calls st)) (set_trace (trace st ++ [EvObsRequest q]) st))) /\
  (forall query,
     search_specy env query st =
       (match api_search env query (net_calls st) with
        | inl e => Raise e
        | inr answer => Ok answer
        end,
        set_net_calls (S (net_calls st))
          (set_trace (trace st ++ [EvSearchRequest query]) st))).
Proof.
  split.
  - intros q. unfold get_observations, try_except. rewrite request_run.
    destruct (api_observations env q (net_calls st)) as [e | answer]; [| reflexivity].
    destruct (is_request_exception e); reflexivity.
  - intros query. unfold search_specy, try_except. rewrite request_run.
    destruct (api_search env query (net_calls st)) as [e | answer]; [| reflexivity].
    destruct (is_request_exception e); reflexivity.
Qed.

Lemma cached_get_observations_miss env q key st res :
  cache st !! key = None ->
  api_observations env q (net_calls st) = inr res ->
  fst (cached_get_observations env q key st) = Ok res /\
  cache (snd (cached_get_observations env q key st)) = <[key := res]> (cache st).
Proof.
  intros Hmiss Hres.
  unfold cached_get_observations, get_observations, request, try_except,
    lock_acquire, lock_release, emit, bind, get, modify, ret.
  rewrite Hmiss, respect_rate_limit_run. simpl.
  rewrite Hres. simpl. split; reflexivity.
Qed.

(** X19. A fetch that misses the cache and whose query fails stores
    nothing, although it went through the rate limiter and sent its
    request: the next fetch for the same key queries the service again, and
    returns and stores the answer if there is one. *)
Theorem cached_get_observations_failure_not_cached env q key st e :
  cache st !! key = None ->
  api_observations env q (net_calls st) = inl e ->
  let r := cached_get_observations env q key st in
  fst r = Raise e /\
  cache (snd r) = cache st /\
  net_calls (snd r) = S (net_calls st) /\
  request_count (snd r) =
    (if request_count st >=? 60 then 0 else request_count st + 1) /\
  (forall res,
     api_observations env q (S (net_calls st)) = inr res ->
     fst (cached_get_observations env q key (snd r)) = Ok res /\
     cache (snd (cached_get_observations env q key (snd r))) = <[key := res]> (cache st)).
Proof.
  intros Hmiss Hfail r. subst r.
  rewrite (cached_get_observations_fails env q key st e Hmiss Hfail).
  cbn [fst snd failed_fetch cache net_calls request_count].
  repeat split; try reflexivity.
  - apply (cached_get_observations_miss env q key (failed_fetch q key st) res);
      [exact Hmiss | exact H].
  - apply (cached_get_observations_miss env q key (failed_fetch q key st) res);
      [exact Hmiss | exact H].
Qed.

(** X20. Without [--species] the script runs bulk mode with the value of
    [--num_images], 100 when the option is absent; a [--num_images] that the
    parser does not accept as an integer stops the script with exit status
    2 before anything else happens. *)
Theorem main_without_species env lib fuel st given :
  let argv := {| Cli.argv_species := None; Cli.argv_num_images := given |} in
  (num_images_of lib given = None ->
   Cli.main env lib fuel argv st = (Raise (SystemExit 2), st)) /\
  (forall nb_img,
     num_images_of lib given = Some nb_img ->
     Cli.main env lib fuel argv st =
       process_indian_oceanic_fish_species env fuel nb_img st).
Proof.
  intros argv. subst argv.
  unfold Cli.main, Cli.parse_args, Cli.int_option, Cli.int_type, num_images_of, accepted.
  cbn [Cli.argv_species Cli.argv_num_images].
  destruct given as [[text | text] |].
  - split.
    + intros H. unfold bind, ret. rewrite H. reflexivity.
    + intros nb_img H. unfold bind, ret. rewrite H. reflexivity.
  - destruct (Cli.takes_argument lib text).
    + split.
      * intros H. unfold bind, ret. rewrite H. reflexivity.
      * intros nb_img H. unfold bind, ret. rewrite H. reflexivity.
    + split; [reflexivity | intros nb_img H; discriminate H].
  - split.
    + intros H. discriminate H.
    + intros nb_img H. injection H as <-. reflexivity.
Qed.

Lemma cached_get_observations_failure_not_cached_witness :
  let st := initial_state ∅ ∅ in
  let r := cached_get_observations fails_once votes_query "fish_photos/blue_tang" st in
  fst r = Raise RequestException /\
  cache (snd r) = ∅ /\
  fst (cached_get_observations fails_once votes_query "fish_photos/blue_tang" (snd r))
    = Ok one_result.
Proof.
  intros st r.
  destruct (cached_get_observations_failure_not_cached fails_once votes_query
              "fish_photos/blue_tang" st RequestException)
    as (H1 & H2 & _ & _ & H5).
  - vm_compute. reflexivity.
  - reflexivity.
  - split; [exact H1 | split; [exact H2 |]].
    apply (H5 one_result). reflexivity.
Defined.

Lemma main_without_species_witness :
  let st := initial_state ∅ ∅ in
  Cli.main no_species sample_library 0
    {| Cli.argv_species := None; Cli.argv_num_images := Some (Cli.Separate "many") |} st
    = (Raise (SystemExit 2), st) /\
  Cli.main no_species sample_library 0
    {| Cli.argv_species := None; Cli.argv_num_images := Some (Cli.Attached "2_5") |} st
    = process_indian_oceanic_fish_species no_species 0 25 st /\
  Cli.main no_species sample_library 0
    {| Cli.argv_species := None; Cli.argv_num_images := None |} st
    = process_indian_oceanic_fish_species no_species 0 100 st.
Proof.
  intros st. split; [| split].
  - apply (main_without_species no_species sample_library 0 st
             (Some (Cli.Separate "many"))). reflexivity.
  - apply (proj2 (main_without_species no_species sample_library 0 st
                    (Some (Cli.Attached "2_5"))) 25). reflexivity.
  - apply (proj2 (main_without_species no_species sample_library 0 st None) 100).
    reflexivity.
Defined.
